(** * RallyRound: topic lifecycle, interest aggregation and scheduling consensus

    A shallow embedding of the client hooks [useTopics]
    (src/client/src/types/index.ts, first version, lines 36-337),
    [useScheduling] (src/client/src/hooks/useAuth.ts, lines 93-422),
    the regenerate gate of [SchedulingPanel] (src/unnamed/part_004) and the
    server route [POST /generate-slots] (src/server/routes/notifications.js).

    The GunDB graph is modelled as a store of nodes, each node a map from
    field names to values; a [put] of a partial object merges its fields into
    the node (creating it when absent).  The React state of the hooks is
    modelled as explicit values threaded through the operations. *)

From Stdlib Require Import ZArith Lia.
From stdpp Require Import base gmap sets list strings sorting pretty.
Open Scope string_scope.
Open Scope Z_scope.

(** ** Data model (src/unnamed/part_003, src/client/src/types/index.ts) *)

Inductive SessionType := OneTime | Recurring.
Inductive Recurrence := Weekly | Biweekly | Monthly.

Record SchedulingConfig := {
  schedulingWindowDays : Z;
  consensusThreshold : Z;
  lockAfterSelections : Z;
}.

Record Topic := {
  topic_id : string;
  title : string;
  description : string;
  presenter : string;
  presenterEmail : string;
  presenterPub : string;
  minParticipants : Z;
  maxParticipants : option Z;
  duration : Z;
  type_ : SessionType;
  recurrence : option Recurrence;
  stage : Z;
  createdAt : Z;
  scheduledTime : option Z;
  schedulingConfig : option SchedulingConfig;
}.

Record Interest := {
  i_name : string;
  i_email : string;
  i_pub : string;
  i_timestamp : Z;
}.

#[global] Instance Interest_eq_dec : EqDecision Interest.
Proof. solve_decision. Defined.

(** JavaScript [x || d] on a numeric field that may be absent: absent and
    [0] both fall back to [d]. *)
Definition or_default (o : option Z) (d : Z) : Z :=
  match o with
  | Some x => if Z.eqb x 0 then d else x
  | None => d
  end.

(** [user.is?.pub] used as a condition: an absent or empty key is falsy. *)
Definition signedIn (me : option string) : option string :=
  match me with
  | Some p => if String.eqb p "" then None else Some p
  | None => None
  end.

(** ** The replicated graph store *)

Inductive Val :=
  | VNum (z : Z)
  | VStr (s : string)
  | VNull
  | VConfig (c : SchedulingConfig).

Abbreviation Node := (gmap string Val).

(** Nodes under [user.get('topics').get(id)] of the user [pub] and under
    [gun.get('public-topics').get(id)]. *)
Record Store := {
  user_topics : gmap (string * string) Node;
  public_topics : gmap string Node;
}.

Inductive Put :=
  | PutUser (pub id : string) (fields : list (string * Val))
  | PutPublic (id : string) (fields : list (string * Val)).

Definition merge_fields (fields : list (string * Val)) (n : Node) : Node :=
  foldl (fun acc kv => <[kv.1 := kv.2]> acc) n fields.

Definition node_put (fields : list (string * Val)) (o : option Node) : option Node :=
  Some (merge_fields fields (default ∅ o)).

Definition apply_put (s : Store) (p : Put) : Store :=
  match p with
  | PutUser pub id fs =>
      {| user_topics := partial_alter (node_put fs) (pub, id) (user_topics s);
         public_topics := public_topics s |}
  | PutPublic id fs =>
      {| user_topics := user_topics s;
         public_topics := partial_alter (node_put fs) id (public_topics s) |}
  end.

Definition apply_puts (s : Store) (ps : list Put) : Store := foldl apply_put s ps.

Inductive Result (A : Type) :=
  | Ok (a : A)
  | Err (msg : string).
Arguments Ok {A} a.
Arguments Err {A} msg.

(** ** useTopics: stage-writing operations (types/index.ts, 204-315) *)

Record TopicUpdates := {
  u_title : option string;
  u_minParticipants : option Z;
  u_maxParticipants : option Z;
  u_duration : option Z;
  u_stage : option Z;
}.

(** [if (o !== undefined) obj[k] = o]. *)
Definition opt_field {A} (k : string) (o : option A) (f : A -> Val) : list (string * Val) :=
  match o with Some x => [(k, f x)] | None => [] end.

(** [updateTopic(topicId, updates)]: only the fields present are written,
    to the caller's own user space and (title, minParticipants, stage) to
    the public discovery graph.  Fields not relevant to stage are kept to a
    representative subset. *)
Definition updateTopic (me : option string) (topicId : string) (u : TopicUpdates)
  : Result (list Put) :=
  match signedIn me with
  | None => Err "Must be authenticated to update topics"
  | Some pub =>
      let clean := (opt_field "title" (u_title u) VStr ++
                    opt_field "minParticipants" (u_minParticipants u) VNum ++
                    opt_field "maxParticipants" (u_maxParticipants u) VNum ++
                    opt_field "duration" (u_duration u) VNum ++
                    opt_field "stage" (u_stage u) VNum)%list in
      let public := (opt_field "title" (u_title u) VStr ++
                     opt_field "minParticipants" (u_minParticipants u) VNum ++
                     opt_field "stage" (u_stage u) VNum)%list in
      Ok (PutUser pub topicId clean ::
          (if bool_decide (public = []) then [] else [PutPublic topicId public]))
  end.

(** [moveToStage2(topicId)]. *)
Definition moveToStage2 (me : option string) (topicId : string) : Result (list Put) :=
  match signedIn me with
  | None => Err "Must be authenticated"
  | Some pub =>
      Ok [PutUser pub topicId [("stage", VNum 2)];
          PutPublic topicId [("stage", VNum 2)]]
  end.

(** [scheduleTopic(topicId, scheduledTime)]. *)
Definition scheduleTopic (me : option string) (topicId : string) (scheduledTime : Z)
  : Result (list Put) :=
  match signedIn me with
  | None => Err "Must be authenticated"
  | Some pub =>
      Ok [PutUser pub topicId [("stage", VNum 3); ("scheduledTime", VNum scheduledTime)];
          PutPublic topicId [("stage", VNum 3)]]
  end.

(** Running an operation against the store: its puts are applied when it
    succeeds, nothing is written when it throws. *)
Definition run (s : Store) (r : Result (list Put)) : Store :=
  match r with
  | Ok ps => apply_puts s ps
  | Err _ => s
  end.

Definition stage_of (s : Store) (pub id : string) : option Val :=
  user_topics s !! (pub, id) ≫= fun n => n !! "stage".

(** ** useTopics: createTopic (types/index.ts, 146-202) *)

(** The caller-supplied fields: [Omit<Topic, 'id' | 'createdAt' |
    'presenterPub' | 'stage'>]. *)
Record TopicData := {
  d_title : string;
  d_description : string;
  d_presenter : string;
  d_presenterEmail : string;
  d_minParticipants : Z;
  d_maxParticipants : option Z;
  d_duration : Z;
  d_type : SessionType;
  d_recurrence : option Recurrence;
  d_schedulingConfig : option SchedulingConfig;
}.

Definition type_val (t : SessionType) : Val :=
  match t with OneTime => VStr "one-time" | Recurring => VStr "recurring" end.

Definition recurrence_val (r : Recurrence) : Val :=
  match r with
  | Weekly => VStr "weekly" | Biweekly => VStr "biweekly" | Monthly => VStr "monthly"
  end.

(** A nested object: GunDB stores it as a linked node. *)
Definition config_val (c : SchedulingConfig) : Val := VConfig c.

Definition topic_fields (t : Topic) : list (string * Val) :=
  ([("id", VStr (topic_id t)); ("title", VStr (title t));
    ("description", VStr (description t)); ("presenter", VStr (presenter t));
    ("presenterEmail", VStr (presenterEmail t)); ("presenterPub", VStr (presenterPub t));
    ("minParticipants", VNum (minParticipants t)); ("duration", VNum (duration t));
    ("type", type_val (type_ t)); ("stage", VNum (stage t));
    ("createdAt", VNum (createdAt t))] ++
   opt_field "maxParticipants" (maxParticipants t) VNum ++
   opt_field "recurrence" (recurrence t) recurrence_val ++
   opt_field "schedulingConfig" (schedulingConfig t) config_val)%list.

(** [createTopic(topicData)]; [newId] is the generated
    [topic_${Date.now()}_${random}] and [now] is [Date.now()].  The topic is
    written to the caller's user space and a [PublicTopicRef] to the public
    discovery graph. *)
Definition createTopic (me : option string) (newId : string) (now : Z) (d : TopicData)
  : Result (Topic * list Put) :=
  match signedIn me with
  | None => Err "Must be authenticated to create topics"
  | Some pub =>
      let topic := {|
        topic_id := newId; title := d_title d; description := d_description d;
        presenter := d_presenter d; presenterEmail := d_presenterEmail d;
        presenterPub := pub; minParticipants := d_minParticipants d;
        maxParticipants := d_maxParticipants d; duration := d_duration d;
        type_ := d_type d; recurrence := d_recurrence d; stage := 1;
        createdAt := now; scheduledTime := None;
        schedulingConfig := d_schedulingConfig d |} in
      let publicRef :=
        [("id", VStr newId); ("title", VStr (title topic));
         ("presenter", VStr (presenter topic)); ("presenterPub", VStr pub);
         ("minParticipants", VNum (minParticipants topic)); ("stage", VNum 1);
         ("interestCount", VNum 0); ("createdAt", VNum (createdAt topic))] in
      Ok (topic, [PutUser pub newId (topic_fields topic); PutPublic newId publicRef])
  end.

(** ** useTopics: interest state (types/index.ts, 94-109) *)

(** The hook's [interests] state: topic id -> interest key -> record. *)
Abbreviation Interests := (gmap string (gmap string Interest)).

(** One delivery of the [topic-interests/<id>] subscription: a record, or
    [None] for a tombstone. *)
Definition deliverInterest (id : string) (st : Interests) (intKey : string)
    (v : option Interest) : Interests :=
  if String.eqb intKey "" then st
  else
    let ti := default ∅ (st !! id) in
    <[id := match v with
            | Some i => <[intKey := i]> ti
            | None => delete intKey ti
            end]> st.

Definition deliverAll (id : string) (st : Interests)
    (ds : list (string * option Interest)) : Interests :=
  foldl (fun acc kv => deliverInterest id acc kv.1 kv.2) st ds.

(** [Array.from(topicInterests.keys()).filter(pub => pub !== presenterPub).length]. *)
Definition interestCount (ti : gmap string Interest) (owner : string) : nat :=
  length (filter (fun pub => pub <> owner) (map fst (map_to_list ti))).

(** ** useTopics: toggleInterest (types/index.ts, 245-285) *)

(** [toggleInterest(topicId, _presenterPub, userName, userEmail)] reads the
    hook's [interests] state and writes [topic-interests/<topicId>/<myPub>]:
    [null] when an entry exists (also deleting it from local state at once),
    a fresh record otherwise.  The result is the written value and the local
    state right after the call. *)
Definition toggleInterest (me : option string) (st : Interests) (topicId : string)
    (userName userEmail : string) (now : Z)
  : Result (string * option Interest * Interests) :=
  match signedIn me with
  | None => Err "Must be authenticated to express interest"
  | Some myPub =>
      let isCurrentlyInterested :=
        match st !! topicId with
        | Some ti => bool_decide (is_Some (ti !! myPub))
        | None => false
        end in
      if isCurrentlyInterested then
        let ti := default ∅ (st !! topicId) in
        Ok (myPub, None, <[topicId := delete myPub ti]> st)
      else
        Ok (myPub,
            Some {| i_name := userName; i_email := userEmail; i_pub := myPub;
                    i_timestamp := now |},
            st)
  end.

(** A toggle followed by the subscription's echo of the written value. *)
Definition toggleObserved (me : option string) (st : Interests) (topicId : string)
    (userName userEmail : string) (now : Z) : Interests :=
  match toggleInterest me st topicId userName userEmail now with
  | Ok (k, v, st') => deliverInterest topicId st' k v
  | Err _ => st
  end.

(** ** useTopics: automatic 1 -> 2 transition (types/index.ts, 121-144) *)

Definition autoTransitionTopic (pub : string) (st : Interests) (t : Topic) : list Put :=
  if negb (Z.eqb (stage t) 1) || negb (String.eqb (presenterPub t) pub) then []
  else
    match st !! topic_id t with
    | None => []
    | Some ti =>
        if Z.leb (minParticipants t) (Z.of_nat (interestCount ti (presenterPub t)))
        then [PutUser pub (topic_id t) [("stage", VNum 2)];
              PutPublic (topic_id t) [("stage", VNum 2)]]
        else []
    end.

(** The effect body, run over the [topics] state by the client of [me]. *)
Definition autoTransition (me : option string) (topics : gmap string Topic)
    (st : Interests) : list Put :=
  match signedIn me with
  | None => []
  | Some pub => concat (map (fun kt => autoTransitionTopic pub st kt.2) (map_to_list topics))
  end.

(** ** Double-precision arithmetic of [Math.round((v / t) * 100)]

    JavaScript numbers are IEEE-754 doubles.  [to_double a b] is the double
    nearest to [a / b] (round to nearest, ties to even) for [a >= 0],
    [b > 0], as a pair [(m, e)] of value [m * 2^e] with a 53-bit mantissa;
    all quotients here are in the normal range. *)

Definition round_half_even (num den : Z) : Z :=
  let q := num / den in
  let r := num mod den in
  if 2 * r <? den then q
  else if den <? 2 * r then q + 1
  else if Z.even q then q else q + 1.

Definition scale_by (a b e : Z) : Z * Z :=
  if 0 <=? e then (a, b * 2 ^ e) else (a * 2 ^ (- e), b).

Definition to_double (a b : Z) : Z * Z :=
  if a =? 0 then (0, 0)
  else
    let e0 := Z.log2 a - Z.log2 b - 53 in
    let e := let '(n, d) := scale_by a b e0 in
             if 2 ^ 53 * d <=? n then e0 + 1 else e0 in
    let '(n, d) := scale_by a b e in
    (round_half_even n d, e).

(** The exact value of a double [(m, e)] as a fraction. *)
Definition double_frac (x : Z * Z) : Z * Z :=
  let '(m, e) := x in if 0 <=? e then (m * 2 ^ e, 1) else (m, 2 ^ (- e)).

(** [Math.round(x)]: the nearest integer, halves rounded up. *)
Definition math_round (x : Z * Z) : Z :=
  let '(n, d) := double_frac x in (2 * n + d) / (2 * d).

(** [Math.round((v / t) * 100)]: the quotient and the product are each
    rounded to a double. *)
Definition roundPercent (v t : Z) : Z :=
  let q := double_frac (to_double v t) in
  math_round (to_double (100 * q.1) q.2).

(** ** useScheduling: preferences, slots and consensus (useAuth.ts, 93-363) *)

Record TimeSlot := {
  slot_id : string;
  start : Z;
  end_ : Z;
  score : Z;
}.

(** [SlotWithVotes]: a slot with the keys and names of its voters. *)
Record SlotWithVotes := {
  sv_slot : TimeSlot;
  votes : list string;
  voterNames : list string;
}.

Record AvailabilityWindow := {
  w_start : Z;
  w_end : Z;
  w_google : bool;
}.

Record SchedulingPreference := {
  userPub : string;
  userName : string;
  userEmail : string;
  selectedSlots : option (list string);
  availability : list AvailabilityWindow;
  p_timestamp : Z;
}.

(** The hook's [preferences] state, keyed by voter key. *)
Abbreviation Preferences := (gmap string SchedulingPreference).

(** [p.selectedSlots && p.selectedSlots.length > 0]. *)
Definition hasSelections (p : SchedulingPreference) : bool :=
  match selectedSlots p with
  | Some (_ :: _) => true
  | _ => false
  end.

Definition selectionCount (prefs : Preferences) : nat :=
  length (filter (fun p => hasSelections p = true) (map snd (map_to_list prefs))).

Definition cfgField (cfg : option SchedulingConfig) (f : SchedulingConfig -> Z) : option Z :=
  match cfg with Some c => Some (f c) | None => None end.

(** [isSlotGenerationLocked()]. *)
Definition isSlotGenerationLocked (cfg : option SchedulingConfig) (prefs : Preferences) : bool :=
  let lockThreshold := or_default (cfgField cfg lockAfterSelections) 3 in
  Z.leb lockThreshold (Z.of_nat (selectionCount prefs)).

(** The effect recomputing [votes] and [voterNames] of every slot when the
    preferences change (useAuth.ts, 171-188). *)
Definition includesSlot (p : SchedulingPreference) (id : string) : bool :=
  match selectedSlots p with
  | Some ids => bool_decide (id ∈ ids)
  | None => false
  end.

Definition withVotes (prefs : Preferences) (sv : SlotWithVotes) : SlotWithVotes :=
  let voters := filter (fun kv => includesSlot kv.2 (slot_id (sv_slot sv)) = true)
                       (map_to_list prefs) in
  {| sv_slot := sv_slot sv; votes := map fst voters;
     voterNames := map (fun kv => userName kv.2) voters |}.

Definition voteCount (sv : SlotWithVotes) : Z := Z.of_nat (length (votes sv)).

(** The "find slot with most votes" loop: a later slot replaces the current
    top slot only with strictly more votes. *)
Fixpoint pickTop (top : SlotWithVotes) (topVotes : Z) (l : list SlotWithVotes)
  : SlotWithVotes * Z :=
  match l with
  | [] => (top, topVotes)
  | s :: l' =>
      if topVotes <? voteCount s then pickTop s (voteCount s) l'
      else pickTop top topVotes l'
  end.

Record ConsensusProgress := {
  threshold : Z;
  topSlot : option SlotWithVotes;
  topSlotVotes : Z;
  topSlotPercentage : Z;
  consensusReached : bool;
  participantsVoted : Z;
  totalParticipants : Z;
}.

(** [getConsensusProgress()]. *)
Definition getConsensusProgress (cfg : option SchedulingConfig) (prefs : Preferences)
    (slots : list SlotWithVotes) : ConsensusProgress :=
  let thr := or_default (cfgField cfg consensusThreshold) 75 in
  let total := Z.of_nat (size prefs) in
  match slots with
  | [] =>
      {| threshold := thr; topSlot := None; topSlotVotes := 0; topSlotPercentage := 0;
         consensusReached := false; participantsVoted := 0; totalParticipants := total |}
  | s0 :: _ =>
      if Z.eqb total 0 then
        {| threshold := thr; topSlot := None; topSlotVotes := 0; topSlotPercentage := 0;
           consensusReached := false; participantsVoted := 0; totalParticipants := total |}
      else
        let '(top, tv) := pickTop s0 (voteCount s0) slots in
        let pct := roundPercent tv total in
        {| threshold := thr; topSlot := Some top; topSlotVotes := tv;
           topSlotPercentage := pct; consensusReached := Z.leb thr pct;
           participantsVoted := Z.of_nat (selectionCount prefs);
           totalParticipants := total |}
  end.

(** ** Server: POST /generate-slots (notifications.js, 160-258)

    Timestamps are milliseconds.  Local time is modelled as UTC without
    daylight-saving changes: [getHours], [getDay] (1970-01-01 was a
    Thursday), [setHours(9, 0, 0, 0)] and [setDate(getDate() + 1)]. *)

Definition MINUTE : Z := 60000.
Definition HOUR : Z := 3600000.
Definition DAY : Z := 86400000.

Definition getHours (t : Z) : Z := (t mod DAY) / HOUR.
Definition getDay (t : Z) : Z := (t / DAY + 4) mod 7.
Definition setHours9 (t : Z) : Z := t - t mod DAY + 9 * HOUR.

Definition MEETING_START_HOUR : Z := 9.
Definition MEETING_END_HOUR : Z := 18.

(** A participant's [busySlots], each [(start, end)]. *)
Record Participant := { busySlots : list (Z * Z) }.

Definition isBusy (slotStart slotEnd : Z) (p : Participant) : bool :=
  existsb (fun b => (slotStart <? b.2) && (b.1 <? slotEnd)) (busySlots p).

(** The score of one candidate: [totalParticipants] is
    [participantAvailability.length || 1]. *)
Definition slotScore (ps : list Participant) (slotStart slotEnd : Z) : Z :=
  let availableCount := Z.of_nat (length (filter (fun p => isBusy slotStart slotEnd p = false) ps)) in
  let totalParticipants := match length ps with O => 1 | n => Z.of_nat n end in
  if 0 <? totalParticipants then roundPercent availableCount totalParticipants else 100.

(** The inner loop over one day, from [currentDay] at 09:00:
    [while (slotStart.getHours() < MEETING_END_HOUR - duration / 60)], i.e.
    [60 * getHours + duration < 60 * 18] over the rationals.  The fuel 48
    bounds the half-hour steps of a day; for [duration > 0] the loop leaves
    by 18:00, after at most 18 steps. *)
Fixpoint dayLoop (fuel : nat) (slotStart duration : Z) (ps : list Participant)
  : list TimeSlot :=
  match fuel with
  | O => []
  | S f =>
      if 60 * getHours slotStart + duration <? 60 * MEETING_END_HOUR then
        let slotEnd := slotStart + duration * MINUTE in
        {| slot_id := "slot_" +:+ pretty slotStart; start := slotStart; end_ := slotEnd;
           score := slotScore ps slotStart slotEnd |}
        :: dayLoop f (slotStart + 30 * MINUTE) duration ps
      else []
  end.

(** The outer loop over days, skipping Saturdays and Sundays. *)
Fixpoint daysLoop (fuel : nat) (currentDay windowEnd duration : Z) (ps : list Participant)
  : list TimeSlot :=
  match fuel with
  | O => []
  | S f =>
      if currentDay <? windowEnd then
        ((if (getDay currentDay =? 0) || (getDay currentDay =? 6) then []
          else dayLoop 48 currentDay duration ps) ++
         daysLoop f (setHours9 (currentDay + DAY)) windowEnd duration ps)%list
      else []
  end.

(** [potentialSlots]: the first day is today at 09:00, or tomorrow when that
    is already past.  The day counter starts below [now + DAY] and grows by a
    day per round, so [windowDays + 1] rounds reach [windowEnd]. *)
Definition potentialSlots (now duration windowDays : Z) (ps : list Participant)
  : list TimeSlot :=
  let windowEnd := now + windowDays * DAY in
  let cd := setHours9 now in
  let cd := if cd <? now then cd + DAY else cd in
  daysLoop (S (Z.to_nat windowDays)) cd windowEnd duration ps.

(** The comparator [(a, b) => b.score - a.score || a.start - b.start] as the
    "sorts before or equal" relation of a stable sort. *)
Definition slotOrder (a b : TimeSlot) : Prop :=
  score b < score a \/ (score b = score a /\ start a <= start b).

#[local] Instance slotOrder_dec a b : Decision (slotOrder a b).
Proof. unfold slotOrder. apply _. Defined.

#[local] Instance slotOrder_total : Total slotOrder.
Proof. intros a b. unfold slotOrder. lia. Qed.

#[local] Instance slotOrder_trans : Transitive slotOrder.
Proof. intros a b c. unfold slotOrder. lia. Qed.

Definition generateSlotsRoute (authenticated : bool) (now duration windowDays : Z)
    (ps : list Participant) : Result (list TimeSlot) :=
  if negb authenticated then Err "Not authenticated"
  else if Z.eqb duration 0 then Err "Duration is required"
  else Ok (take 10 (merge_sort slotOrder (potentialSlots now duration windowDays ps))).

(** ** useScheduling: generateSlots (useAuth.ts, 200-251) *)

Record SlotsRequest := {
  req_duration : Z;
  req_windowDays : Z;
  req_participants : list Participant;
}.

Inductive SchedPut :=
  | PutSlot (topicId : string) (s : TimeSlot)
  | PutSlotGeneratedAt (topicId : string) (at_ : Z).

(** The body of the POST: every preference contributes an empty
    [busySlots] list. *)
Definition slotsRequest (topic : Topic) (prefs : Preferences) : SlotsRequest :=
  {| req_duration := duration topic;
     req_windowDays := or_default (cfgField (schedulingConfig topic) schedulingWindowDays) 14;
     req_participants := map (fun _ => {| busySlots := [] |}) (map_to_list prefs) |}.

(** How the POST of [generateSlots()] can end, from the client's side:
    [fetch()] rejects (a network error, thrown with its own message); the
    response is not ok; [response.json()] rejects, or destructuring its
    result or iterating its [slots] throws (thrown with that error's
    message); or the body's [slots] is a list of slots. *)
Inductive SlotsResponse :=
  | FetchRejected (err : string)
  | ResponseNotOk
  | BodyRejected (err : string)
  | BodySlots (slots : list TimeSlot).

(** [generateSlots()]; [server] answers the POST.  The [catch] block logs
    and rethrows the error unchanged. *)
Definition generateSlots (topic : Topic) (prefs : Preferences)
    (server : SlotsRequest -> SlotsResponse) (now : Z)
  : Result (list TimeSlot * list SchedPut) :=
  match server (slotsRequest topic prefs) with
  | FetchRejected err => Err err
  | ResponseNotOk => Err "Failed to generate slots"
  | BodyRejected err => Err err
  | BodySlots newSlots =>
      Ok (newSlots, (map (PutSlot (topic_id topic)) newSlots ++
                     [PutSlotGeneratedAt (topic_id topic) now])%list)
  end.

(** [SchedulingPanel] (src/unnamed/part_004, 220-248): the owner sees
    "Generate Time Slots" while there are no slots, and "Regenerate Slots"
    only while [!isLocked]; both call [generateSlots]. *)
Definition generateButtonShown (isOwner : bool) (slots : list SlotWithVotes) : bool :=
  isOwner && bool_decide (slots = []).

Definition regenerateButtonShown (isOwner isLocked : bool) (slots : list SlotWithVotes) : bool :=
  negb (bool_decide (slots = [])) && isOwner && negb isLocked.

(** Whether [pub] currently has an interest entry for topic [id] in the
    hook's state ([interests.get(topicId)?.has(pub)]). *)
Definition isMember (st : Interests) (id pub : string) : bool :=
  match st !! id with
  | Some ti => bool_decide (is_Some (ti !! pub))
  | None => false
  end.

(** ** Sample values for the concrete checks below *)

Definition sampleTopic (owner : string) (stg minP : Z) : Topic :=
  {| topic_id := "t1"; title := "Intro to Rocq"; description := "A talk";
     presenter := "Alice"; presenterEmail := "alice@example.org"; presenterPub := owner;
     minParticipants := minP; maxParticipants := None; duration := 60; type_ := OneTime;
     recurrence := None; stage := stg; createdAt := 0; scheduledTime := None;
     schedulingConfig := None |}.

Definition sampleInterest (pub : string) : Interest :=
  {| i_name := pub; i_email := pub +:+ "@example.org"; i_pub := pub; i_timestamp := 0 |}.

Definition samplePref (pub : string) (sel : list string) : SchedulingPreference :=
  {| userPub := pub; userName := pub; userEmail := pub +:+ "@example.org";
     selectedSlots := Some sel; availability := []; p_timestamp := 0 |}.

Definition sampleSlot (id : string) (st : Z) (voters : list string) : SlotWithVotes :=
  {| sv_slot := {| slot_id := id; start := st; end_ := st + 60 * 60000; score := 100 |};
     votes := voters; voterNames := voters |}.

(** ** useScheduling: the slot subscription and slot selection (useAuth.ts, 116-146, 253-301) *)

(** The handler shared by the [slots] subscription of [useScheduling] and the
    notification subscription of [useNotifications]: [findIndex] by id, then
    replace, append or [splice(i, 1)], then the stable [sort] whose
    comparator is [R] read as "sorts before or equal". *)
Section UpsertById.
Context {A : Type} (idOf : A -> string) (R : relation A) `{!RelDecision R}.

(** The array built by the [setX(prev => ...)] updater before it is sorted. *)
Definition upsertNext (prev : list A) (id : string) (data : option A) : list A :=
  match data, list_find (fun x => idOf x = id) prev with
  | Some x, Some (i, _) => <[i := x]> prev
  | Some x, None => (prev ++ [x])%list
  | None, Some (i, _) => delete i prev
  | None, None => prev
  end.

Definition upsertById (prev : list A) (id : string) (data : option A) : list A :=
  merge_sort R (upsertNext prev id data).
End UpsertById.

Definition svOrder (a b : SlotWithVotes) : Prop := slotOrder (sv_slot a) (sv_slot b).

#[local] Instance svOrder_dec : RelDecision svOrder.
Proof. intros a b. unfold svOrder. apply _. Defined.

#[local] Instance svOrder_total : Total svOrder.
Proof. intros a b. unfold svOrder, slotOrder. lia. Qed.

#[local] Instance svOrder_trans : Transitive svOrder.
Proof. intros a b c. unfold svOrder, slotOrder. lia. Qed.

(** [schedulingRef.get('slots').map().on(...)]: [data] is the delivered slot
    node, [None] for null; the slot enters with [votes] and [voterNames]
    empty.  An empty key leaves the state as it is. *)
Definition deliverSlot (prev : list SlotWithVotes) (id : string) (data : option TimeSlot)
  : list SlotWithVotes :=
  if String.eqb id "" then prev
  else upsertById (fun sv => slot_id (sv_slot sv)) svOrder prev id
         (option_map (fun d => {| sv_slot := d; votes := []; voterNames := [] |}) data).

(** The writes of [toggleSlotSelection] under
    [topic-scheduling/<topic>/preferences/<pub>]. *)
Inductive PrefPut :=
  | PutPrefSelectedSlots (topicId pub : string) (sel : list string)
  | PutPrefTimestamp (topicId pub : string) (at_ : Z).

(** [toggleSlotSelection(slotId)]: the new [mySelectedSlots] and the writes. *)
Definition toggleSlotSelection (me : option string) (topicId : string)
    (mySelectedSlots : list string) (slotId : string) (now : Z)
  : Result (list string * list PrefPut) :=
  match signedIn me with
  | None => Err "Must be authenticated to select slots"
  | Some pub =>
      let newSelections :=
        if bool_decide (slotId ∈ mySelectedSlots)
        then filter (fun id => id <> slotId) mySelectedSlots
        else (mySelectedSlots ++ [slotId])%list in
      Ok (newSelections, [PutPrefSelectedSlots topicId pub newSelections;
                          PutPrefTimestamp topicId pub now])
  end.

(** [submitPreference(userName, userEmail, availability)]: the preference
    written and its [calendarSyncedAt] field. *)
Definition submitPreference (me : option string) (mySelectedSlots : list string)
    (userName' userEmail' : string) (availability' : list AvailabilityWindow) (now : Z)
  : Result (SchedulingPreference * option Z) :=
  match signedIn me with
  | None => Err "Must be authenticated to submit preference"
  | Some pub =>
      Ok ({| userPub := pub; userName := userName'; userEmail := userEmail';
             selectedSlots := Some mySelectedSlots; availability := availability';
             p_timestamp := now |},
          if existsb w_google availability' then Some now else None)
  end.

(** ** useScheduling: the availability grid (useAuth.ts, 365-407) *)

Record GridCell := {
  g_pub : string;
  g_name : string;
  g_available : bool;
  g_selected : bool;
}.

Definition getAvailabilityGrid (prefs : Preferences) (slots : list SlotWithVotes)
  : list (SlotWithVotes * list GridCell) :=
  map (fun slot =>
         (slot, map (fun kv =>
                  {| g_pub := kv.1; g_name := userName kv.2;
                     g_available := existsb (fun w => (w_start w <=? start (sv_slot slot)) &&
                                                      (end_ (sv_slot slot) <=? w_end w))
                                            (availability kv.2);
                     g_selected := includesSlot kv.2 (slot_id (sv_slot slot)) |})
                (map_to_list prefs)))
      slots.

(** The vote bar of one slot in [SchedulingPanel] (part_004, 253-255). *)
Definition votePercentage (slot : SlotWithVotes) (totalParticipants' : Z) : Z :=
  if 0 <? totalParticipants' then roundPercent (Z.of_nat (length (votes slot))) totalParticipants'
  else 0.

(** ** useAvailability (src/client/src/hooks/useAvailability.ts, 1-219) *)

(** [addManualWindow(window)]: appended with source ['manual']. *)
Definition addManualWindow (prev : list AvailabilityWindow) (s e : Z) : list AvailabilityWindow :=
  (prev ++ [{| w_start := s; w_end := e; w_google := false |}])%list.

(** [prev.filter((_, i) => i !== index)], the position counted from [i]. *)
Fixpoint filterIndexNe (i : nat) (index : Z) (l : list AvailabilityWindow)
  : list AvailabilityWindow :=
  match l with
  | [] => []
  | w :: l' =>
      if Z.eqb (Z.of_nat i) index then filterIndexNe (S i) index l'
      else w :: filterIndexNe (S i) index l'
  end.

Definition removeManualWindow (prev : list AvailabilityWindow) (index : Z)
  : list AvailabilityWindow :=
  filterIndexNe 0 index prev.

(** The comparator [(a, b) => a.start - b.start] on busy slots [(start, end)]. *)
Definition busyOrder (a b : Z * Z) : Prop := a.1 <= b.1.

#[local] Instance busyOrder_dec : RelDecision busyOrder.
Proof. intros a b. unfold busyOrder. apply _. Defined.

#[local] Instance busyOrder_total : Total busyOrder.
Proof. intros a b. unfold busyOrder. lia. Qed.

#[local] Instance busyOrder_trans : Transitive busyOrder.
Proof. intros a b c. unfold busyOrder. lia. Qed.

(** The [for (const busy of sorted)] loop: the windows pushed and the final
    [currentStart]. *)
Fixpoint freeLoop (currentStart : Z) (sorted : list (Z * Z)) : list AvailabilityWindow * Z :=
  match sorted with
  | [] => ([], currentStart)
  | busy :: rest =>
      let w := if currentStart <? busy.1
               then [{| w_start := currentStart; w_end := busy.1; w_google := true |}]
               else [] in
      let '(ws, c) := freeLoop (Z.max currentStart busy.2) rest in
      ((w ++ ws)%list, c)
  end.

(** [convertBusyToFree(busySlots, timeMin, timeMax)]. *)
Definition convertBusyToFree (busySlots : list (Z * Z)) (timeMin timeMax : Z)
  : list AvailabilityWindow :=
  match busySlots with
  | [] => [{| w_start := timeMin; w_end := timeMax; w_google := true |}]
  | _ =>
      let '(ws, currentStart) := freeLoop timeMin (merge_sort busyOrder busySlots) in
      (ws ++ (if currentStart <? timeMax
              then [{| w_start := currentStart; w_end := timeMax; w_google := true |}]
              else []))%list
  end.

(** The response of [GET /scheduling/availability]; [timeMin] and [timeMax]
    are the instants their ISO strings denote. *)
Record CalendarAvailability := {
  hasCalendar : bool;
  cal_busySlots : list (Z * Z);
  cal_timeMin : Z;
  cal_timeMax : Z;
}.

(** [getCombinedAvailability()]. *)
Definition getCombinedAvailability (manualAvailability : list AvailabilityWindow)
    (calendarAvailability : option CalendarAvailability) : list AvailabilityWindow :=
  match calendarAvailability with
  | Some c =>
      if hasCalendar c
      then (manualAvailability ++
            convertBusyToFree (cal_busySlots c) (cal_timeMin c) (cal_timeMax c))%list
      else manualAvailability
  | None => manualAvailability
  end.

(** [submitAvailability(userName, userEmail, selectedSlots)]: the preference
    written and its [calendarSyncedAt] field, which here follows
    [calendarAvailability?.hasCalendar]; both [Date.now()] calls are [now]. *)
Definition submitAvailability (me : option string) (userName' userEmail' : string)
    (selectedSlots' : list string) (manualAvailability : list AvailabilityWindow)
    (calendarAvailability : option CalendarAvailability) (now : Z)
  : Result (SchedulingPreference * option Z) :=
  match signedIn me with
  | None => Err "Must be authenticated to submit availability"
  | Some pub =>
      Ok ({| userPub := pub; userName := userName'; userEmail := userEmail';
             selectedSlots := Some selectedSlots';
             availability := getCombinedAvailability manualAvailability calendarAvailability;
             p_timestamp := now |},
          match calendarAvailability with
          | Some c => if hasCalendar c then Some now else None
          | None => None
          end)
  end.

(** ** useNotifications (useAvailability.ts, 221-378) *)

Record Notification := {
  n_id : string;
  n_userPub : string;
  n_type : string;
  n_topicId : string;
  n_topicTitle : string;
  n_message : string;
  n_read : bool;
  n_createdAt : Z;
}.

(** The comparator [(a, b) => b.createdAt - a.createdAt]: newest first. *)
Definition notifOrder (a b : Notification) : Prop := n_createdAt b <= n_createdAt a.

#[local] Instance notifOrder_dec : RelDecision notifOrder.
Proof. intros a b. unfold notifOrder. apply _. Defined.

#[local] Instance notifOrder_total : Total notifOrder.
Proof. intros a b. unfold notifOrder. lia. Qed.

#[local] Instance notifOrder_trans : Transitive notifOrder.
Proof. intros a b c. unfold notifOrder. lia. Qed.

(** [notificationsRef.map().on(...)]. *)
Definition deliverNotification (prev : list Notification) (id : string)
    (data : option Notification) : list Notification :=
  if String.eqb id "" then prev else upsertById n_id notifOrder prev id data.

(** [notifyTopicParticipants(topicId, ..., excludePubs)]: the keys for which
    [createNotification] is called, in visiting order, over the preference
    graph of the topic (a tombstoned preference is [None]). *)
Definition notifyTargets (graph : gmap string (option SchedulingPreference))
    (excludePubs : list string) : list string :=
  map fst (filter (fun kv => is_Some kv.2 /\ kv.1 <> "" /\ kv.1 ∉ excludePubs)
                  (map_to_list graph)).

(** ** useTopics: the stage lists (types/index.ts, 318-322)

    [Array.from(topics.values())]; the properties below do not depend on the
    iteration order. *)
Definition topicsArray (topics : gmap string Topic) : list Topic := map snd (map_to_list topics).

Definition stage1Topics (topics : gmap string Topic) : list Topic :=
  filter (fun t => stage t = 1) (topicsArray topics).
Definition stage2Topics (topics : gmap string Topic) : list Topic :=
  filter (fun t => stage t = 2) (topicsArray topics).
Definition scheduledTopics (topics : gmap string Topic) : list Topic :=
  filter (fun t => stage t = 3) (topicsArray topics).

(** * Properties *)

(** ** The store *)

Lemma merge_fields_app (fs1 fs2 : list (string * Val)) (n : Node) :
  merge_fields (fs1 ++ fs2) n = merge_fields fs2 (merge_fields fs1 n).
Proof. unfold merge_fields. by rewrite foldl_app. Qed.

Lemma merge_fields_other (fs : list (string * Val)) (n : Node) (k : string) :
  k ∉ map fst fs -> merge_fields fs n !! k = n !! k.
Proof.
  unfold merge_fields. revert n.
  induction fs as [|[k' v'] fs IH]; intros n Hk; simpl; [done|].
  rewrite IH; [|set_solver]. simpl in Hk.
  rewrite lookup_insert_ne; [done|set_solver].
Qed.

Lemma merge_fields_head (fs : list (string * Val)) (n : Node) (k : string) (v : Val) :
  k ∉ map fst fs -> merge_fields ((k, v) :: fs) n !! k = Some v.
Proof.
  intros Hk. change (merge_fields fs (<[k := v]> n) !! k = Some v).
  rewrite merge_fields_other by done. by rewrite lookup_insert_eq.
Qed.

Lemma merge_fields_suffix (fs1 fs2 : list (string * Val)) (n : Node) (k : string) (v : Val) :
  (forall m, merge_fields fs2 m !! k = Some v) ->
  merge_fields (fs1 ++ fs2) n !! k = Some v.
Proof. intros H. rewrite merge_fields_app. apply H. Qed.

Lemma signedIn_some (pub : string) : pub <> "" -> signedIn (Some pub) = Some pub.
Proof.
  intros H. unfold signedIn. destruct (String.eqb_spec pub "") as [->|]; [done|done].
Qed.

Lemma signedIn_inv (me : option string) (pub : string) :
  signedIn me = Some pub -> me = Some pub.
Proof.
  unfold signedIn. destruct me as [p|]; [|done].
  destruct (String.eqb p ""); [done|]. by intros [= ->].
Qed.

Lemma stage_after_public_puts (s : Store) (pub id : string) (rest : list Put) (v : Val) :
  stage_of s pub id = Some v ->
  Forall (fun p => match p with PutUser _ _ _ => False | PutPublic _ _ => True end) rest ->
  stage_of (apply_puts s rest) pub id = Some v.
Proof.
  intros H1 Hrest. unfold apply_puts. revert s H1.
  induction Hrest as [|p rest Hp _ IH]; intros s H1; [exact H1|].
  simpl. apply IH. destruct p as [? ? ?|? ?]; [contradiction|exact H1].
Qed.

Lemma stage_after_user_put (s : Store) (pub id : string) (fs : list (string * Val))
    (rest : list Put) (v : Val) :
  (forall m, merge_fields fs m !! "stage" = Some v) ->
  Forall (fun p => match p with PutUser _ _ _ => False | PutPublic _ _ => True end) rest ->
  stage_of (apply_puts s (PutUser pub id fs :: rest)) pub id = Some v.
Proof.
  intros Hfs Hrest. apply (stage_after_public_puts (apply_put s (PutUser pub id fs))); [|done].
  unfold stage_of. simpl. rewrite lookup_partial_alter_eq. simpl. apply Hfs.
Qed.

Lemma public_stage_after_put (s : Store) (p : Put) (id : string) (v : Val) :
  p = PutPublic id [("stage", v)] ->
  public_topics (apply_put s p) !! id ≫= (fun n => n !! "stage") = Some v.
Proof.
  intros ->. simpl. rewrite lookup_partial_alter_eq. simpl. by rewrite lookup_insert_eq.
Qed.

(** ** Stage writes (C1) *)

(** C1 (counterexample): the owner's [moveToStage2] on a topic already at
    stage 3 sets its stage back to 2. *)
Lemma C1_moveToStage2_lowers_stage :
  let s := {| user_topics := {[("alice", "t1") := {["stage" := VNum 3]}]};
              public_topics := {["t1" := {["stage" := VNum 3]}]} |} in
  stage_of s "alice" "t1" = Some (VNum 3) /\
  stage_of (run s (moveToStage2 (Some "alice") "t1")) "alice" "t1" = Some (VNum 2).
Proof. split; reflexivity. Qed.

(** C1 (amended): none of [updateTopic], [moveToStage2] or [scheduleTopic]
    compares with the current stage.  For a signed-in caller each writes its
    stage unconditionally into the caller's topic node, whatever the store
    held before: [moveToStage2] writes 2, also on a stage-3 topic, and
    [scheduleTopic] writes 3.  Both also write that stage to the public
    ref.  [updateTopic] writes any stage it is given. *)
Theorem C1_stage_writes_unconditional (s : Store) (pub id : string) (when st : Z)
    (u : TopicUpdates) :
  pub <> "" ->
  stage_of (run s (moveToStage2 (Some pub) id)) pub id = Some (VNum 2) /\
  public_topics (run s (moveToStage2 (Some pub) id)) !! id ≫= (fun n => n !! "stage")
    = Some (VNum 2) /\
  stage_of (run s (scheduleTopic (Some pub) id when)) pub id = Some (VNum 3) /\
  public_topics (run s (scheduleTopic (Some pub) id when)) !! id ≫= (fun n => n !! "stage")
    = Some (VNum 3) /\
  (u_stage u = Some st ->
   stage_of (run s (updateTopic (Some pub) id u)) pub id = Some (VNum st)).
Proof.
  intros Hpub. unfold moveToStage2, scheduleTopic, updateTopic.
  rewrite !signedIn_some by exact Hpub. unfold run.
  split; [|split; [|split; [|split]]].
  - apply stage_after_user_put; [|by repeat constructor].
    intros m. apply merge_fields_head. simpl. set_solver.
  - unfold apply_puts. cbn [foldl]. by apply public_stage_after_put.
  - apply stage_after_user_put; [|by repeat constructor].
    intros m. apply merge_fields_head. simpl. set_solver.
  - unfold apply_puts. cbn [foldl]. by apply public_stage_after_put.
  - intros Hst. rewrite Hst. apply stage_after_user_put.
    + intros m. repeat (apply merge_fields_suffix; intros ?).
      apply merge_fields_head. simpl. set_solver.
    + destruct (bool_decide _); repeat constructor.
Qed.

Lemma C1_stage_writes_unconditional_witness :
  "alice" <> "" /\
  stage_of (run {| user_topics := {[("alice", "t1") := {["stage" := VNum 3]}]};
                   public_topics := ∅ |}
                (moveToStage2 (Some "alice") "t1")) "alice" "t1" = Some (VNum 2).
Proof.
  split; [discriminate|].
  apply (C1_stage_writes_unconditional _ "alice" "t1" 0 0
           {| u_title := None; u_minParticipants := None; u_maxParticipants := None;
              u_duration := None; u_stage := None |}).
  discriminate.
Defined.

(** ** createTopic (C8) *)

(** C8 (counterexample): a signed-in [createTopic] with [minParticipants = 0],
    a recurring session without recurrence and [maxParticipants = -1] below
    [minParticipants] is accepted.  The topic is returned at stage 1 and
    written. *)
Lemma C8_createTopic_accepts_invalid_fields :
  match createTopic (Some "alice") "topic_1_abc" 1000
          {| d_title := "T"; d_description := "D"; d_presenter := "Alice";
             d_presenterEmail := "a@example.org"; d_minParticipants := 0;
             d_maxParticipants := Some (-1); d_duration := 60; d_type := Recurring;
             d_recurrence := None; d_schedulingConfig := None |} with
  | Ok (t, ps) => stage t = 1 /\ minParticipants t = 0 /\ length ps = 2%nat
  | Err _ => False
  end.
Proof. repeat split. Qed.

(** C8 (amended): [createTopic] validates no field.  A caller that is not
    signed in gets an error and nothing is written.  For a signed-in caller
    it returns the topic whatever its fields: the given fields, owner the
    caller, stage 1.  It also writes the topic to the caller's space and a
    public ref to the discovery graph. *)
Theorem C8_createTopic_no_validation (me : option string) (newId : string) (now : Z)
    (d : TopicData) :
  match signedIn me with
  | None => exists msg, createTopic me newId now d = Err msg
  | Some pub =>
      exists t publicRef,
        createTopic me newId now d =
          Ok (t, [PutUser pub newId (topic_fields t); PutPublic newId publicRef]) /\
        stage t = 1 /\ topic_id t = newId /\ presenterPub t = pub /\
        minParticipants t = d_minParticipants d /\
        maxParticipants t = d_maxParticipants d /\
        type_ t = d_type d /\ recurrence t = d_recurrence d /\
        duration t = d_duration d /\ createdAt t = now
  end.
Proof.
  unfold createTopic. destruct (signedIn me) as [pub|].
  - eexists _, _. split; [reflexivity|]. simpl. repeat split.
  - by eexists.
Qed.

(** ** toggleInterest (C9) *)

Lemma isMember_deliver (st : Interests) (id k k' : string) (v : option Interest) :
  k <> "" ->
  isMember (deliverInterest id st k v) id k' =
    if decide (k' = k) then bool_decide (is_Some v) else isMember st id k'.
Proof.
  intros Hk. unfold isMember, deliverInterest.
  destruct (String.eqb_spec k "") as [|_]; [done|].
  rewrite lookup_insert_eq. destruct (decide (k' = k)) as [->|Hne].
  - destruct v; simpl.
    + rewrite lookup_insert_eq. by rewrite !bool_decide_true by done.
    + rewrite lookup_delete_eq. rewrite bool_decide_false; [done|]. by intros [].
  - destruct v; simpl.
    + rewrite lookup_insert_ne by congruence.
      destruct (st !! id); simpl; [done|]. rewrite lookup_empty.
      by rewrite bool_decide_false by (by intros []).
    + rewrite lookup_delete_ne by congruence.
      destruct (st !! id); simpl; [done|]. rewrite lookup_empty.
      by rewrite bool_decide_false by (by intros []).
Qed.

Lemma isMember_delete_local (st : Interests) (id k k' : string) :
  isMember (<[id := delete k (default ∅ (st !! id))]> st) id k' =
    if decide (k' = k) then false else isMember st id k'.
Proof.
  unfold isMember. rewrite lookup_insert_eq. destruct (decide (k' = k)) as [->|Hne].
  - rewrite lookup_delete_eq. apply bool_decide_false. by intros [].
  - rewrite lookup_delete_ne by congruence.
    destruct (st !! id); simpl; [done|]. rewrite lookup_empty.
    apply bool_decide_false. by intros [].
Qed.

(** Re-delivering the same value is a no-op. *)
Lemma deliverInterest_idem (st : Interests) (id k : string) (v : option Interest) :
  deliverInterest id (deliverInterest id st k v) k v = deliverInterest id st k v.
Proof.
  unfold deliverInterest. destruct (String.eqb k ""); [done|].
  rewrite lookup_insert_eq. simpl. rewrite insert_insert_eq. f_equal.
  destruct v; [by rewrite insert_insert_eq|by rewrite delete_delete_eq].
Qed.

Lemma isMember_toggleObserved (me : option string) (pub : string) (st : Interests)
    (tid name email : string) (now : Z) (k : string) :
  signedIn me = Some pub ->
  isMember (toggleObserved me st tid name email now) tid k =
    if decide (k = pub) then negb (isMember st tid pub) else isMember st tid k.
Proof.
  intros Hme.
  assert (pub <> "") as Hpub.
  { revert Hme. unfold signedIn. destruct me as [p|]; [|done].
    destruct (String.eqb_spec p ""); [done|]. by intros [= <-]. }
  unfold toggleObserved, toggleInterest. rewrite Hme.
  destruct (match st !! tid with
            | Some ti => bool_decide (is_Some (ti !! pub))
            | None => false end) eqn:Hcur.
  - rewrite isMember_deliver by done. rewrite isMember_delete_local.
    unfold isMember at 2. rewrite Hcur.
    destruct (decide (k = pub)); [done|done].
  - rewrite isMember_deliver by done.
    unfold isMember at 2. rewrite Hcur.
    destruct (decide (k = pub)) as [->|]; [|done].
    by rewrite bool_decide_true by done.
Qed.

(** C9 (counterexample): starting with no interest, one toggle makes "bob"
    interested and a second toggle removes the interest again, so two
    toggles do not give the state of one. *)
Lemma C9_double_toggle_differs :
  let once := toggleObserved (Some "bob") ∅ "t1" "Bob" "bob@example.org" 1 in
  let twice := toggleObserved (Some "bob") once "t1" "Bob" "bob@example.org" 2 in
  isMember once "t1" "bob" = true /\ isMember twice "t1" "bob" = false.
Proof. split; reflexivity. Qed.

(** C9 (amended): [toggleInterest] is an involution on membership.  With
    each call seeing the echo of the previous write, one toggle flips the
    caller's membership and a second restores the starting membership;
    other identities are untouched.  Only re-delivery of the same written
    value (an at-least-once replay of one write) is idempotent. *)
Theorem C9_toggle_involution (me : option string) (pub : string) (st : Interests)
    (tid name email : string) (now now' : Z) :
  signedIn me = Some pub ->
  let once := toggleObserved me st tid name email now in
  let twice := toggleObserved me once tid name email now' in
  isMember once tid pub = negb (isMember st tid pub) /\
  isMember twice tid pub = isMember st tid pub /\
  (forall k, k <> pub -> isMember twice tid k = isMember st tid k) /\
  (forall k v, deliverInterest tid (deliverInterest tid st k v) k v =
               deliverInterest tid st k v).
Proof.
  intros Hme once twice. subst once twice.
  split; [|split; [|split]].
  - rewrite (isMember_toggleObserved me pub) by done. by rewrite decide_True.
  - rewrite !(isMember_toggleObserved me pub) by done.
    rewrite !decide_True by done. by destruct (isMember st tid pub).
  - intros k Hk. rewrite !(isMember_toggleObserved me pub) by done.
    by rewrite !decide_False by done.
  - intros k v. apply deliverInterest_idem.
Qed.

Lemma C9_toggle_involution_witness :
  signedIn (Some "bob") = Some "bob" /\
  isMember (toggleObserved (Some "bob") ∅ "t1" "Bob" "bob@example.org" 1) "t1" "bob"
    = negb (isMember ∅ "t1" "bob").
Proof.
  split; [reflexivity|].
  apply (C9_toggle_involution (Some "bob") "bob" ∅ "t1" "Bob" "bob@example.org" 1 2).
  reflexivity.
Defined.

(** ** Interest aggregation (C3) *)

(** Two deliveries commute unless they carry different values for one key. *)
Lemma deliverInterest_comm (id : string) (st : Interests) (k1 k2 : string)
    (v1 v2 : option Interest) :
  (k1 = k2 -> v1 = v2) ->
  deliverInterest id (deliverInterest id st k1 v1) k2 v2 =
  deliverInterest id (deliverInterest id st k2 v2) k1 v1.
Proof.
  intros Hkv. destruct (decide (k1 = k2)) as [<-|Hne]; [by rewrite (Hkv eq_refl)|].
  unfold deliverInterest.
  destruct (String.eqb k1 ""), (String.eqb k2 ""); try done.
  rewrite !lookup_insert_eq, !insert_insert_eq. simpl. f_equal.
  destruct v1, v2.
  - by rewrite insert_insert_ne by congruence.
  - by rewrite delete_insert_ne by congruence.
  - by rewrite insert_delete_ne by congruence.
  - by rewrite delete_delete.
Qed.

Lemma foldl_perm_comm {A B} (f : B -> A -> B) (l l' : list A) :
  l ≡ₚ l' ->
  (forall b x y, x ∈ l -> y ∈ l -> f (f b x) y = f (f b y) x) ->
  forall b, foldl f b l = foldl f b l'.
Proof.
  induction 1 as [|x l l' Hp IH|x y l|l l' l'' H1 IH1 H2 IH2]; intros Hc b; simpl.
  - done.
  - apply IH. intros b' a c Ha Hc'. apply Hc; set_solver.
  - rewrite Hc by set_solver. done.
  - rewrite IH1 by done. apply IH2. intros b' a c Ha Hc'.
    apply Hc; by rewrite H1.
Qed.

(** Delivery order does not matter for deliveries that give each key one
    value (possibly redelivered). *)
Lemma deliverAll_perm (id : string) (st : Interests) (ds ds' : list (string * option Interest)) :
  ds ≡ₚ ds' ->
  (forall k v v', (k, v) ∈ ds -> (k, v') ∈ ds -> v = v') ->
  deliverAll id st ds = deliverAll id st ds'.
Proof.
  intros Hp Hfun. unfold deliverAll. apply foldl_perm_comm; [done|].
  intros b [k1 v1] [k2 v2] H1 H2. simpl. apply deliverInterest_comm.
  intros ->. by eapply Hfun.
Qed.

Lemma deliverAll_other (id : string) (st : Interests) (ds : list (string * option Interest))
    (k : string) :
  k ∉ map fst ds ->
  deliverAll id st ds !! id ≫= (fun ti => ti !! k) = st !! id ≫= (fun ti => ti !! k).
Proof.
  unfold deliverAll. revert st. induction ds as [|[k' v'] ds IH]; intros st Hk; [done|].
  simpl. rewrite IH by set_solver. unfold deliverInterest.
  destruct (String.eqb k' ""); [done|]. rewrite lookup_insert_eq. simpl.
  assert (k' <> k) by set_solver.
  destruct v'; [rewrite lookup_insert_ne by done|rewrite lookup_delete_ne by done];
    destruct (st !! id); simpl; [done| |done|]; by rewrite lookup_empty.
Qed.

(** After the deliveries, an identity has an entry exactly when its
    delivered value is a live record. *)
Lemma deliverAll_lookup (id : string) (st : Interests) (ds : list (string * option Interest))
    (k : string) (v : option Interest) :
  (forall k' v1 v2, (k', v1) ∈ ds -> (k', v2) ∈ ds -> v1 = v2) ->
  k <> "" -> (k, v) ∈ ds ->
  deliverAll id st ds !! id ≫= (fun ti => ti !! k) = v.
Proof.
  unfold deliverAll. revert st. induction ds as [|[k' v'] ds IH]; intros st Hfun Hk Hin.
  - set_solver.
  - simpl. destruct (decide ((k, v) ∈ ds)) as [Hds|Hds].
    + apply IH; [|done|done]. intros k2 w1 w2 H1 H2. apply (Hfun k2); set_solver.
    + assert ((k, v) = (k', v')) as [= <- <-] by set_solver.
      assert (k ∉ map fst ds) as Hnot.
      { intros Hm. apply list_elem_of_fmap in Hm as [[k2 v2] [Hk2 Hm]]. simpl in Hk2. subst k2.
        assert (v2 = v) as -> by (apply (Hfun k); set_solver). done. }
      fold (deliverAll id (deliverInterest id st k v) ds).
      rewrite deliverAll_other by done. unfold deliverInterest.
      destruct (String.eqb_spec k "") as [|_]; [done|].
      rewrite lookup_insert_eq. simpl.
      destruct v; [by rewrite lookup_insert_eq|by rewrite lookup_delete_eq].
Qed.

Lemma interestCount_dom (ti : gmap string Interest) (owner : string) :
  interestCount ti owner = size (dom ti ∖ {[owner]}).
Proof.
  induction ti as [|i x m Hi IH] using map_ind.
  - unfold interestCount. rewrite map_to_list_empty, dom_empty_L.
    replace (∅ ∖ {[owner]} : gset string) with (∅ : gset string) by set_solver.
    by rewrite size_empty.
  - unfold interestCount in *.
    rewrite (map_to_list_insert m i x Hi). simpl.
    rewrite dom_insert_L. destruct (decide (i = owner)) as [->|Hne].
    + rewrite filter_cons_False by (by intros ?). rewrite IH. f_equal. set_solver.
    + rewrite filter_cons_True by done. cbn [length]. rewrite IH.
      replace (({[i]} ∪ dom m) ∖ {[owner]}) with ({[i]} ∪ dom m ∖ {[owner]}) by set_solver.
      rewrite (size_union {[i]}).
      * by rewrite size_singleton.
      * apply not_elem_of_dom in Hi. set_solver.
Qed.

Lemma autoTransition_singleton (me : option string) (k : string) (t : Topic) (st : Interests) :
  autoTransition me {[k := t]} st =
    match signedIn me with None => [] | Some pub => autoTransitionTopic pub st t end.
Proof.
  unfold autoTransition. rewrite map_to_list_singleton.
  destruct (signedIn me); simpl; [by rewrite app_nil_r|done].
Qed.

Lemma autoTransitionTopic_spec (pub : string) (st : Interests) (t : Topic) :
  autoTransitionTopic pub st t <> [] <->
  stage t = 1 /\ presenterPub t = pub /\
  exists ti, st !! topic_id t = Some ti /\
             minParticipants t <= Z.of_nat (interestCount ti (presenterPub t)).
Proof.
  unfold autoTransitionTopic.
  destruct (Z.eqb_spec (stage t) 1) as [Hs|Hs], (String.eqb_spec (presenterPub t) pub) as [Hp|Hp];
    simpl; try (split; [done|intros (? & ? & _); done]).
  destruct (st !! topic_id t) as [ti|] eqn:Hti.
  - destruct (Z.leb_spec (minParticipants t) (Z.of_nat (interestCount ti (presenterPub t)))).
    + split; [intros _; split; [done|split; [done|by exists ti]]|done].
    + split; [done|]. intros (_ & _ & ti' & [= <-] & ?). lia.
  - split; [done|]. by intros (_ & _ & ti' & ? & _).
Qed.

Lemma autoTransition_elem (me : option string) (topics : gmap string Topic) (st : Interests)
    (p : Put) :
  p ∈ autoTransition me topics st ->
  exists pub k t, signedIn me = Some pub /\ topics !! k = Some t /\ presenterPub t = pub /\
    (p = PutUser pub (topic_id t) [("stage", VNum 2)] \/
     p = PutPublic (topic_id t) [("stage", VNum 2)]).
Proof.
  unfold autoTransition. destruct (signedIn me) as [pub|] eqn:Hme; [|set_solver].
  rewrite list_elem_of_In, in_concat. intros (l & Hl & Hp).
  apply in_map_iff in Hl as ([k t] & <- & Hkt). simpl in Hp.
  apply list_elem_of_In, elem_of_map_to_list in Hkt.
  exists pub, k, t. split; [done|split; [done|]].
  unfold autoTransitionTopic in Hp.
  destruct (negb (stage t =? 1) || negb (String.eqb (presenterPub t) pub)) eqn:Hg;
    [destruct Hp|].
  apply orb_false_iff in Hg as [_ Hg]. apply negb_false_iff, String.eqb_eq in Hg.
  split; [done|].
  destruct (st !! topic_id t); [|destruct Hp].
  destruct (Z.leb _ _); [|destruct Hp].
  destruct Hp as [<-|[<-|[]]]; [left|right]; done.
Qed.

(** C3 (counterexample): a topic at stage 1 whose owner is "alice" has two
    interested identities other than the owner with [minParticipants = 1];
    observed by the signed-in client of "bob", the threshold check writes
    nothing, so the stage is not advanced. *)
Lemma C3_threshold_met_not_advanced :
  let t := sampleTopic "alice" 1 1 in
  let st : Interests := {["t1" := {["bob" := sampleInterest "bob"]}
                                   ∪ {["carol" := sampleInterest "carol"]}]} in
  interestCount ({["bob" := sampleInterest "bob"]} ∪ {["carol" := sampleInterest "carol"]})
                "alice" = 2%nat /\
  autoTransition (Some "bob") {["t1" := t]} st = [].
Proof. split; reflexivity. Qed.

(** C3 (amended): the count of interested identities other than the owner
    is the number of keys of the topic's observed interest map without the
    owner.  Tombstoned records are removed from that map.  For deliveries
    that give each identity one value, possibly delivered more than once,
    the map, and so the count, is the same in every delivery order.  Every
    delivered identity has an entry exactly when its record is live.  The
    threshold check writes stage 2 only on the owner's signed-in client,
    when the topic is at stage 1, its interest map has been observed, and
    the count is at least [minParticipants]. *)
Theorem C3_interest_count_and_owner_transition (id : string) (st : Interests)
    (ds ds' : list (string * option Interest)) (me : option string) (t : Topic) :
  ds ≡ₚ ds' ->
  (forall k v v', (k, v) ∈ ds -> (k, v') ∈ ds -> v = v') ->
  deliverAll id st ds = deliverAll id st ds' /\
  (forall k v, k <> "" -> (k, v) ∈ ds -> deliverAll id st ds !! id ≫= (fun ti => ti !! k) = v) /\
  (forall ti owner, interestCount ti owner = size (dom ti ∖ {[owner]})) /\
  (autoTransition me {[topic_id t := t]} st <> [] <->
     signedIn me = Some (presenterPub t) /\ stage t = 1 /\
     exists ti, st !! topic_id t = Some ti /\
                minParticipants t <= Z.of_nat (interestCount ti (presenterPub t))) /\
  (forall p, p ∈ autoTransition me {[topic_id t := t]} st ->
     exists pub, p = PutUser pub (topic_id t) [("stage", VNum 2)] \/
                 p = PutPublic (topic_id t) [("stage", VNum 2)]).
Proof.
  intros Hp Hfun. split; [|split; [|split; [|split]]].
  - by apply deliverAll_perm.
  - intros k v Hk Hin. by apply deliverAll_lookup.
  - apply interestCount_dom.
  - rewrite autoTransition_singleton. destruct (signedIn me) as [pub|].
    + rewrite autoTransitionTopic_spec. split.
      * intros (Hs & <- & Hti). done.
      * intros ([= <-] & Hs & Hti). done.
    + split; [done|]. by intros ([=] & _).
  - intros p Hin. apply autoTransition_elem in Hin as (pub & k & t' & _ & Hk & _ & Hp').
    apply lookup_singleton_Some in Hk as [<- <-]. by exists pub.
Qed.

Lemma C3_interest_count_and_owner_transition_witness :
  deliverAll "t1" ∅ [("bob", Some (sampleInterest "bob")); ("carol", None)] =
  deliverAll "t1" ∅ [("carol", None); ("bob", Some (sampleInterest "bob"))].
Proof.
  apply (C3_interest_count_and_owner_transition "t1" ∅ _ _ None (sampleTopic "alice" 1 1)).
  - apply Permutation_swap.
  - intros k v v' H1 H2. rewrite !list_elem_of_In in H1, H2. simpl in H1, H2.
    destruct H1 as [H1|[H1|[]]], H2 as [H2|[H2|[]]];
      inversion H1; inversion H2; subst; congruence.
Defined.

(** ** The owner guard of the automatic transition (C10) *)

Lemma apply_puts_user_other (s : Store) (ps : list Put) (key : string * string) :
  (forall p, p ∈ ps -> match p with PutUser pub id _ => (pub, id) <> key | PutPublic _ _ => True end) ->
  user_topics (apply_puts s ps) !! key = user_topics s !! key.
Proof.
  unfold apply_puts. revert s. induction ps as [|p ps IH]; intros s Hps; [done|].
  simpl. rewrite IH by (intros; apply Hps; set_solver).
  specialize (Hps p ltac:(set_solver)).
  destruct p as [pub id fs|id fs]; simpl; [|done].
  by rewrite lookup_partial_alter_ne.
Qed.

Lemma apply_puts_public_other (s : Store) (ps : list Put) (key : string) :
  (forall p, p ∈ ps -> match p with PutUser _ _ _ => True | PutPublic id _ => id <> key end) ->
  public_topics (apply_puts s ps) !! key = public_topics s !! key.
Proof.
  unfold apply_puts. revert s. induction ps as [|p ps IH]; intros s Hps; [done|].
  simpl. rewrite IH by (intros; apply Hps; set_solver).
  specialize (Hps p ltac:(set_solver)).
  destruct p as [pub id fs|id fs]; simpl; [done|].
  by rewrite lookup_partial_alter_ne.
Qed.

(** C10: the threshold check of an observer other than the topic's owner
    writes nothing for that topic.  Neither the owner's topic node nor the
    topic's public ref changes, so the 1 -> 2 transition happens only on
    the owner's client.  Topics are held under their own ids. *)
Theorem C10_non_owner_check_writes_nothing (me : option string) (topics : gmap string Topic)
    (st : Interests) (s : Store) (k : string) (t : Topic) :
  (forall k' t', topics !! k' = Some t' -> topic_id t' = k') ->
  topics !! k = Some t ->
  me <> Some (presenterPub t) ->
  (forall pub, signedIn me = Some pub -> autoTransitionTopic pub st t = []) /\
  user_topics (apply_puts s (autoTransition me topics st)) !! (presenterPub t, k)
    = user_topics s !! (presenterPub t, k) /\
  public_topics (apply_puts s (autoTransition me topics st)) !! k = public_topics s !! k.
Proof.
  intros Hids Hk Hme. split; [|split].
  - intros pub Hpub. apply signedIn_inv in Hpub. subst me.
    unfold autoTransitionTopic.
    destruct (String.eqb_spec (presenterPub t) pub) as [Heq|Hne].
    + exfalso. apply Hme. by rewrite Heq.
    + by rewrite orb_true_r.
  - apply apply_puts_user_other. intros p Hp.
    apply autoTransition_elem in Hp as (pub & k' & t' & Hpub & Hk' & Ht' & Hp).
    apply signedIn_inv in Hpub. subst me.
    destruct Hp as [->| ->]; [|done]. intros [= Hown _]. congruence.
  - apply apply_puts_public_other. intros p Hp.
    apply autoTransition_elem in Hp as (pub & k' & t' & Hpub & Hk' & Ht' & Hp).
    apply signedIn_inv in Hpub. subst me.
    destruct Hp as [->| ->]; [done|]. intros Heq.
    rewrite (Hids _ _ Hk') in Heq. subst k'. rewrite Hk in Hk'.
    injection Hk' as ->. congruence.
Qed.

Lemma C10_non_owner_check_writes_nothing_witness :
  autoTransitionTopic "bob" {["t1" := {["bob" := sampleInterest "bob"]}]}
    (sampleTopic "alice" 1 1) = [].
Proof.
  refine (proj1 (C10_non_owner_check_writes_nothing (Some "bob")
            {["t1" := sampleTopic "alice" 1 1]} {["t1" := {["bob" := sampleInterest "bob"]}]}
            {| user_topics := ∅; public_topics := ∅ |} "t1" (sampleTopic "alice" 1 1)
            _ _ _) "bob" eq_refl).
  - intros k' t' Hk'. apply lookup_singleton_Some in Hk' as [<- <-]. reflexivity.
  - reflexivity.
  - discriminate.
Defined.

(** ** The slot-generation lock (C2) *)

Lemma selectionCount_insert_fresh (prefs : Preferences) (k : string) (p : SchedulingPreference) :
  prefs !! k = None ->
  selectionCount (<[k:=p]> prefs) = ((if hasSelections p then 1 else 0) + selectionCount prefs)%nat.
Proof.
  intros Hk. unfold selectionCount.
  assert (Hp : filter (fun q => hasSelections q = true) (map snd (map_to_list (<[k:=p]> prefs)))
            ≡ₚ filter (fun q => hasSelections q = true) (map snd ((k, p) :: map_to_list prefs))).
  { apply filter_Permutation. apply Permutation_map. by apply map_to_list_insert. }
  rewrite (Permutation_length Hp). simpl.
  destruct (hasSelections p) eqn:E.
  - rewrite filter_cons_True by done. done.
  - rewrite filter_cons_False by congruence. done.
Qed.

Lemma selectionCount_clear (prefs : Preferences) (k : string) (p p' : SchedulingPreference) :
  prefs !! k = Some p -> hasSelections p = true -> hasSelections p' = false ->
  S (selectionCount (<[k:=p']> prefs)) = selectionCount prefs.
Proof.
  intros Hk Hp Hp'.
  rewrite <- (insert_delete_id prefs k p Hk) at 2.
  rewrite <- insert_delete_eq.
  rewrite !selectionCount_insert_fresh by apply lookup_delete_eq.
  rewrite Hp, Hp'. done.
Qed.

(** C2, counterexample: with the default threshold 3, three voters with a
    selection lock generation; once one of them clears their selection
    ([toggleSlotSelection] writes an empty [selectedSlots]), the lock is
    recomputed from the current preferences and is off again. *)
Lemma C2_lock_released_after_clearing :
  let prefs := <["a" := samplePref "a" ["s1"]]> (<["b" := samplePref "b" ["s1"]]>
                 {["c" := samplePref "c" ["s1"]]}) in
  isSlotGenerationLocked None prefs = true /\
  isSlotGenerationLocked None (<["a" := samplePref "a" []]> prefs) = false.
Proof. split; vm_compute; reflexivity. Qed.

(** C2 (amended): the lock is recomputed from the current preferences and is
    not monotonic.  When a voter holding a non-empty selection clears it, the
    number of voters with a selection drops by exactly one, and the lock then
    holds iff that lower count still reaches [lockAfterSelections] (3 when
    unset or 0). *)
Theorem C2_lock_recomputed_on_clear (cfg : option SchedulingConfig) (prefs : Preferences)
    (k : string) (p p' : SchedulingPreference) :
  prefs !! k = Some p -> hasSelections p = true -> hasSelections p' = false ->
  selectionCount (<[k:=p']> prefs) = (selectionCount prefs - 1)%nat /\
  isSlotGenerationLocked cfg (<[k:=p']> prefs)
    = Z.leb (or_default (cfgField cfg lockAfterSelections) 3) (Z.of_nat (selectionCount prefs) - 1).
Proof.
  intros Hk Hp Hp'.
  pose proof (selectionCount_clear prefs k p p' Hk Hp Hp') as Hc.
  split; [lia|].
  unfold isSlotGenerationLocked. f_equal. lia.
Qed.

Lemma C2_lock_recomputed_on_clear_witness :
  isSlotGenerationLocked None
    (<["a" := samplePref "a" []]> (<["a" := samplePref "a" ["s1"]]>
       (<["b" := samplePref "b" ["s1"]]> {["c" := samplePref "c" ["s1"]]})))
  = Z.leb 3 (3 - 1).
Proof.
  refine (proj2 (C2_lock_recomputed_on_clear None
    (<["a" := samplePref "a" ["s1"]]> (<["b" := samplePref "b" ["s1"]]> {["c" := samplePref "c" ["s1"]]}))
    "a" (samplePref "a" ["s1"]) (samplePref "a" []) _ _ _)).
  - vm_compute. reflexivity.
  - reflexivity.
  - reflexivity.
Defined.

(** ** Consensus progress (C4) *)

Lemma pickTop_spec (top : SlotWithVotes) (tv : Z) (l : list SlotWithVotes) :
  let r := pickTop top tv l in
  (r = (top, tv) /\ forall s, s ∈ l -> voteCount s <= tv) \/
  (exists i, l !! i = Some r.1 /\ r.2 = voteCount r.1 /\ tv < r.2 /\
     (forall j s, (j < i)%nat -> l !! j = Some s -> voteCount s < r.2) /\
     (forall s, s ∈ l -> voteCount s <= r.2)).
Proof.
  revert top tv. induction l as [|s l IH]; intros top tv; simpl.
  - left. split; [done|]. intros s Hs. inversion Hs.
  - destruct (Z.ltb_spec tv (voteCount s)) as [Hlt|Hge].
    + right. destruct (IH s (voteCount s)) as [[-> Hall]|(i & Hi & Hv & Hgt & Hbefore & Hall)].
      * exists 0%nat. simpl. split_and!; [done|done|lia|..].
        { intros j x Hj. lia. }
        { intros x Hx. apply elem_of_cons in Hx as [->|Hx]; [lia|]. by apply Hall. }
      * exists (S i). split_and!; [done|done|lia|..].
        { intros [|j] x Hj Hx; simpl in Hx.
          - injection Hx as <-. lia.
          - apply (Hbefore j); [lia|done]. }
        { intros x Hx. apply elem_of_cons in Hx as [->|Hx]; [lia|]. by apply Hall. }
    + destruct (IH top tv) as [[Hr Hall]|(i & Hi & Hv & Hgt & Hbefore & Hall)].
      * left. split; [done|]. intros x Hx.
        apply elem_of_cons in Hx as [->|Hx]; [lia|]. by apply Hall.
      * right. exists (S i). split_and!; [done|done|lia|..].
        { intros [|j] x Hj Hx; simpl in Hx.
          - injection Hx as <-. lia.
          - apply (Hbefore j); [lia|done]. }
        { intros x Hx. apply elem_of_cons in Hx as [->|Hx]; [lia|]. by apply Hall. }
Qed.

(** The slot picked by the loop over a non-empty slot list: a slot of maximal
    vote count, every slot before it having strictly fewer votes. *)
Lemma pickTop_first_max (s0 : SlotWithVotes) (rest : list SlotWithVotes) :
  let r := pickTop s0 (voteCount s0) (s0 :: rest) in
  exists i, (s0 :: rest) !! i = Some r.1 /\ r.2 = voteCount r.1 /\
    (forall s, s ∈ s0 :: rest -> voteCount s <= r.2) /\
    (forall j s, (j < i)%nat -> (s0 :: rest) !! j = Some s -> voteCount s < r.2).
Proof.
  simpl. rewrite Z.ltb_irrefl.
  destruct (pickTop_spec s0 (voteCount s0) rest) as [[Hr Hall]|(i & Hi & Hv & Hgt & Hbefore & Hall)].
  - rewrite Hr. exists 0%nat. simpl. split_and!; [done|done|..].
    + intros s Hs. apply elem_of_cons in Hs as [->|Hs]; [lia|]. by apply Hall.
    + intros j s Hj. lia.
  - exists (S i). split_and!; [done|done|..].
    + intros s Hs. apply elem_of_cons in Hs as [->|Hs]; [lia|]. by apply Hall.
    + intros [|j] s Hj Hs; simpl in Hs.
      * injection Hs as <-. lia.
      * apply (Hbefore j); [lia|done].
Qed.

(** C4: the spec's percentage is round(100 x topSlotVotes /
    totalParticipants), but the code computes
    [Math.round((topSlotVotes / totalParticipants) * 100)] in double
    precision.  With 23 of 40 participants selecting the only slot and a
    consensus threshold of 58, the exact percentage 57.5 rounds (half up) to
    58, which meets the threshold; 23/40 is stored just below 0.575, the
    product is 57.49999999999999, so the code reports 57 and
    [consensusReached] is false. *)
Theorem C4_double_rounding_flips_consensus :
  let prefs : Preferences :=
    list_to_map (map (fun n : nat => let k := pretty (Z.of_nat n) in
                        (k, samplePref k (if (n <? 23)%nat then ["s1"] else [])))
                     (seq 0 40)) in
  let cfg := Some {| schedulingWindowDays := 14; consensusThreshold := 58;
                     lockAfterSelections := 3 |} in
  let r := getConsensusProgress cfg prefs [withVotes prefs (sampleSlot "s1" 0 [])] in
  topSlotVotes r = 23 /\ totalParticipants r = 40 /\ threshold r = 58 /\
  (2 * 100 * topSlotVotes r + totalParticipants r) / (2 * totalParticipants r) = 58 /\
  threshold r <= 58 /\
  topSlotPercentage r = 57 /\
  consensusReached r = false.
Proof. vm_compute. split_and!; first [reflexivity | discriminate]. Qed.

(** What [getConsensusProgress()] computes: [threshold] is
    [consensusThreshold], or 75 when it is unset or 0, and
    [totalParticipants] is the number of entries of the preference map.  With no slots or no participants, [topSlot] is null
    and the votes, percentage and [consensusReached] are 0, 0 and false.
    Otherwise [topSlot] is a slot of maximal vote count, every slot before it
    in the list having strictly fewer votes; [topSlotPercentage] is
    [Math.round((topSlotVotes / totalParticipants) * 100)] evaluated in
    double precision ([roundPercent]); and [consensusReached] holds iff that
    percentage is at least the threshold. *)
Theorem getConsensusProgress_spec (cfg : option SchedulingConfig) (prefs : Preferences)
    (slots : list SlotWithVotes) :
  let r := getConsensusProgress cfg prefs slots in
  threshold r = or_default (cfgField cfg consensusThreshold) 75 /\
  totalParticipants r = Z.of_nat (size prefs) /\
  ((slots = [] \/ size prefs = 0%nat) ->
     topSlot r = None /\ topSlotVotes r = 0 /\ topSlotPercentage r = 0 /\
     consensusReached r = false) /\
  (slots <> [] -> size prefs <> 0%nat ->
     exists i top, slots !! i = Some top /\ topSlot r = Some top /\
       topSlotVotes r = voteCount top /\
       (forall s, s ∈ slots -> voteCount s <= voteCount top) /\
       (forall j s, (j < i)%nat -> slots !! j = Some s -> voteCount s < voteCount top) /\
       topSlotPercentage r = roundPercent (voteCount top) (Z.of_nat (size prefs)) /\
       consensusReached r = Z.leb (threshold r) (topSlotPercentage r)).
Proof.
  intros r. subst r. unfold getConsensusProgress. cbv beta iota zeta.
  destruct slots as [|s0 rest].
  - split_and!; done.
  - destruct (Z.eqb_spec (Z.of_nat (size prefs)) 0) as [H0|H0].
    + split_and!; try done.
      intros _ Hs. lia.
    + pose proof (pickTop_first_max s0 rest) as Hp. cbv zeta in Hp. revert Hp.
      destruct (pickTop s0 (voteCount s0) (s0 :: rest)) as [top tv].
      cbv beta iota. simpl fst. simpl snd.
      intros (i & Hi & Hv & Hmax & Hbefore). subst tv.
      split_and!; try done.
      * intros [Hs|Hs]; [congruence|lia].
      * intros _ _. exists i, top. split_and!; done.
Qed.

(** ** Slot regeneration and the lock (C7) *)

(** The request body depends on the preferences only through their number. *)
Lemma slotsRequest_size (topic : Topic) (prefs prefs' : Preferences) :
  size prefs = size prefs' -> slotsRequest topic prefs = slotsRequest topic prefs'.
Proof.
  intros Hsz. unfold slotsRequest. f_equal.
  assert (Hc : forall l : list (string * SchedulingPreference),
    map (fun _ => {| busySlots := [] |}) l = replicate (length l) {| busySlots := [] |}).
  { induction l as [|x l IH]; [done|]. simpl. by rewrite IH. }
  rewrite !Hc, !length_map_to_list. by rewrite Hsz.
Qed.

(** C7, counterexample: three voters have selected a slot, so
    [isSlotGenerationLocked()] is true, yet [generateSlots()] succeeds and
    writes the new slots. *)
Lemma C7_generate_while_locked :
  let prefs := <["a" := samplePref "a" ["s1"]]> (<["b" := samplePref "b" ["s1"]]>
                 {["c" := samplePref "c" ["s1"]]}) in
  let topic := sampleTopic "alice" 2 1 in
  let slot := sv_slot (sampleSlot "s2" 0 []) in
  isSlotGenerationLocked (schedulingConfig topic) prefs = true /\
  generateSlots topic prefs (fun _ => BodySlots [slot]) 5
    = Ok ([slot], [PutSlot "t1" slot; PutSlotGeneratedAt "t1" 5]).
Proof. split; vm_compute; reflexivity. Qed.

(** C7 (amended): [generateSlots()] does not consult the lock: its result
    depends on the preferences only through their number, and it never
    raises a LockedError.  A response that is not ok makes it fail with
    "Failed to generate slots"; a rejected [fetch()] or an unreadable body
    makes it fail with that error, rethrown unchanged; a body whose [slots]
    is a list of slots makes it write every slot and the generation time,
    and return the slots.  It succeeds exactly in that last case.  The lock
    only gates the UI: the "Regenerate Slots" button is shown only while
    unlocked. *)
Theorem C7_generate_ignores_lock (topic : Topic) (prefs : Preferences)
    (server : SlotsRequest -> SlotsResponse) (now : Z) :
  let r := generateSlots topic prefs server now in
  (forall prefs' : Preferences, size prefs' = size prefs ->
     generateSlots topic prefs' server now = r) /\
  (server (slotsRequest topic prefs) = ResponseNotOk ->
     r = Err "Failed to generate slots") /\
  (forall err, server (slotsRequest topic prefs) = FetchRejected err ->
     r = Err err) /\
  (forall err, server (slotsRequest topic prefs) = BodyRejected err ->
     r = Err err) /\
  (forall newSlots, server (slotsRequest topic prefs) = BodySlots newSlots ->
     r = Ok (newSlots, (map (PutSlot (topic_id topic)) newSlots ++
                        [PutSlotGeneratedAt (topic_id topic) now])%list)) /\
  ((exists v, r = Ok v) <->
     exists newSlots, server (slotsRequest topic prefs) = BodySlots newSlots) /\
  (forall isOwner isLocked slots,
     regenerateButtonShown isOwner isLocked slots = true -> isLocked = false).
Proof.
  intros r. subst r. unfold generateSlots. split_and!.
  - intros prefs' Hsz. by rewrite (slotsRequest_size topic prefs' prefs Hsz).
  - by intros ->.
  - by intros err ->.
  - by intros err ->.
  - by intros newSlots ->.
  - destruct (server (slotsRequest topic prefs)); split.
    + intros [v H]. discriminate.
    + intros [l H]. discriminate.
    + intros [v H]. discriminate.
    + intros [l H]. discriminate.
    + intros [v H]. discriminate.
    + intros [l H]. discriminate.
    + intros _. by eexists.
    + intros _. by eexists.
  - intros isOwner [] slots; unfold regenerateButtonShown;
      [rewrite andb_false_r; discriminate|done].
Qed.

(** ** Slot scores with no participants (C5) *)

(** C5: [participantAvailability.length || 1] makes the total 1 when there
    are no participants, so the [: 100] branch is never taken.  With an empty
    participant list every slot scores 0, not 100.  On Monday 2024-01-01
    at 08:00 with a one-day window and a one-hour duration, the route returns
    ten slots, each with score 0. *)
Theorem C5_no_participants_score_zero :
  (forall slotStart slotEnd, slotScore [] slotStart slotEnd = 0) /\
  (exists l, generateSlotsRoute true (19723 * DAY + 8 * HOUR) 60 1 [] = Ok l /\
     length l = 10%nat /\ Forall (fun s => score s = 0) l).
Proof.
  split.
  - intros a b. reflexivity.
  - eexists. split; [vm_compute; reflexivity|].
    split; vm_compute; [reflexivity|].
    repeat constructor.
Qed.

(** ** The end-of-day bound (C6) *)

(** C6: the loop condition [getHours() < 18 - duration / 60] compares the
    start hour, not the end time, with 18:00.  For a one-hour meeting the
    17:00 start, which ends exactly at 18:00, is never produced: on Monday
    2024-01-01 the starts are 09:00, 09:30, ..., 16:30.  For a 45-minute
    meeting the 17:30 start is produced although it ends at 18:15. *)
Theorem C6_end_of_day_bound :
  (forall fuel t ps, getHours t = 17 -> dayLoop fuel t 60 ps = []) /\
  map start (potentialSlots (19723 * DAY + 8 * HOUR) 60 1 [])
    = map (fun k : nat => 19723 * DAY + 9 * HOUR + Z.of_nat k * 30 * MINUTE) (seq 0 16) /\
  19723 * DAY + 17 * HOUR + 30 * MINUTE
    ∈ map start (potentialSlots (19723 * DAY + 8 * HOUR) 45 1 []).
Proof.
  split_and!.
  - intros [|fuel] t ps Ht; [done|]. simpl. rewrite Ht. done.
  - vm_compute. reflexivity.
  - refine (bool_decide_unpack _ _). vm_compute. reflexivity.
Qed.

(** ** Free windows from busy slots (useAvailability.ts, 80-117) *)

Lemma freeLoop_end (cs : Z) (l : list (Z * Z)) :
  cs <= (freeLoop cs l).2 /\ forall b, b ∈ l -> b.2 <= (freeLoop cs l).2.
Proof.
  revert cs. induction l as [|b l IH]; intros cs; simpl.
  - split; [lia|]. intros b Hb. inversion Hb.
  - destruct (IH (Z.max cs b.2)) as [H1 H2].
    destruct (freeLoop (Z.max cs b.2) l) as [ws c]. simpl in *.
    split; [lia|]. intros b' Hb'. apply elem_of_cons in Hb' as [->|Hb']; [lia|]. auto.
Qed.

Lemma freeLoop_windows (cs : Z) (l : list (Z * Z)) (w : AvailabilityWindow) :
  w ∈ (freeLoop cs l).1 -> w_google w = true /\ cs <= w_start w < w_end w.
Proof.
  revert cs. induction l as [|b l IH]; intros cs; simpl; [intros Hw; inversion Hw|].
  pose proof (IH (Z.max cs b.2)) as IH'.
  destruct (freeLoop (Z.max cs b.2) l) as [ws c]. simpl in *.
  intros Hw. apply elem_of_app in Hw as [Hw|Hw].
  - destruct (Z.ltb_spec cs b.1); [|inversion Hw].
    apply list_elem_of_singleton in Hw as ->. simpl. split; [done|lia].
  - destruct (IH' Hw) as (? & ? & ?). split; [done|lia].
Qed.

Lemma freeLoop_disjoint (cs : Z) (l : list (Z * Z)) (w : AvailabilityWindow) (b : Z * Z) :
  StronglySorted busyOrder l -> w ∈ (freeLoop cs l).1 -> b ∈ l ->
  ~ (w_start w < b.2 /\ b.1 < w_end w).
Proof.
  intros HS. revert cs. induction HS as [|b0 l HS IH Hall]; intros cs; simpl;
    [intros Hw; inversion Hw|].
  pose proof (freeLoop_windows (Z.max cs b0.2) l) as Hwin.
  pose proof (IH (Z.max cs b0.2)) as IH'.
  destruct (freeLoop (Z.max cs b0.2) l) as [ws c]. simpl in *.
  intros Hw Hb. apply elem_of_app in Hw as [Hw|Hw].
  - destruct (Z.ltb_spec cs b0.1); [|inversion Hw].
    apply list_elem_of_singleton in Hw as ->. simpl.
    apply elem_of_cons in Hb as [->|Hb]; [lia|].
    rewrite Forall_forall in Hall. specialize (Hall b Hb). unfold busyOrder in Hall. lia.
  - apply elem_of_cons in Hb as [->|Hb].
    + destruct (Hwin w Hw) as (? & ? & ?). lia.
    + by apply IH'.
Qed.

Lemma StronglySorted_app_inv {B} (R : relation B) (l1 l2 : list B) :
  StronglySorted R l1 -> StronglySorted R l2 ->
  (forall x y, x ∈ l1 -> y ∈ l2 -> R x y) -> StronglySorted R (l1 ++ l2).
Proof.
  intros H1. induction H1 as [|x l1 H1 IH Hx]; intros H2 Hxy; simpl; [done|].
  constructor.
  - apply IH; [done|]. intros a b Ha Hb. apply Hxy; [by apply elem_of_cons; right|done].
  - apply Forall_app. split; [done|].
    apply Forall_forall. intros y Hy. apply Hxy; [apply elem_of_cons; by left|done].
Qed.

Lemma freeLoop_sorted (cs : Z) (l : list (Z * Z)) :
  StronglySorted busyOrder l -> (forall b, b ∈ l -> b.1 <= b.2) ->
  StronglySorted (fun w1 w2 => w_end w1 <= w_start w2) (freeLoop cs l).1 /\
  forall w, w ∈ (freeLoop cs l).1 -> w_end w <= (freeLoop cs l).2.
Proof.
  intros HS. revert cs. induction HS as [|b0 l HS IH Hall]; intros cs Hwf; simpl.
  - split; [constructor|]. intros w Hw. inversion Hw.
  - pose proof (freeLoop_windows (Z.max cs b0.2) l) as Hwin.
    pose proof (freeLoop_end (Z.max cs b0.2) l) as [Hc1 Hc2].
    destruct (IH (Z.max cs b0.2)) as [IHs IHe].
    { intros b Hb. apply Hwf. by apply elem_of_cons; right. }
    assert (Hb0 : b0.1 <= b0.2) by (apply Hwf; apply elem_of_cons; by left).
    destruct (freeLoop (Z.max cs b0.2) l) as [ws c]. simpl in *.
    split.
    + apply StronglySorted_app_inv; [|done|].
      * destruct (cs <? b0.1); repeat constructor.
      * intros x y Hx Hy. destruct (cs <? b0.1); [|inversion Hx].
        apply list_elem_of_singleton in Hx as ->. simpl.
        destruct (Hwin y Hy) as (? & ? & ?). lia.
    + intros w Hw. apply elem_of_app in Hw as [Hw|Hw]; [|auto].
      destruct (cs <? b0.1); [|inversion Hw].
      apply list_elem_of_singleton in Hw as ->. simpl. lia.
Qed.

Lemma freeLoop_complete (cs : Z) (l : list (Z * Z)) (t : Z) :
  cs <= t -> (forall b, b ∈ l -> ~ (b.1 <= t < b.2)) ->
  (exists w, w ∈ (freeLoop cs l).1 /\ w_start w <= t < w_end w) \/ (freeLoop cs l).2 <= t.
Proof.
  revert cs. induction l as [|b l IH]; intros cs Ht Hfree; simpl; [by right|].
  pose proof (IH (Z.max cs b.2)) as IH'.
  destruct (freeLoop (Z.max cs b.2) l) as [ws c]. simpl in *.
  assert (Hb : ~ (b.1 <= t < b.2)) by (apply Hfree; apply elem_of_cons; by left).
  destruct (Z.ltb_spec t b.1) as [Hlt|Hge].
  - left. destruct (Z.ltb_spec cs b.1); [|lia].
    exists {| w_start := cs; w_end := b.1; w_google := true |}.
    split; [apply elem_of_app; left; by apply list_elem_of_singleton|simpl; lia].
  - destruct IH' as [(w & Hw & Hwt)|Hc].
    + lia.
    + intros b' Hb'. apply Hfree. by apply elem_of_cons; right.
    + left. exists w. split; [apply elem_of_app; by right|done].
    + by right.
Qed.

Lemma merge_sort_busy (busy : list (Z * Z)) :
  StronglySorted busyOrder (merge_sort busyOrder busy) /\
  forall b, b ∈ merge_sort busyOrder busy <-> b ∈ busy.
Proof.
  split; [exact (StronglySorted_merge_sort busyOrder busy)|].
  intros b. pose proof (merge_sort_Permutation busyOrder busy) as HP.
  split; intros Hb; [by rewrite <- HP | by rewrite HP].
Qed.

(** Every window [convertBusyToFree] returns is a non-empty Google window
    starting no earlier than [timeMin], and it overlaps no busy slot: no
    instant of it lies in any [[busy.start, busy.end)]. *)
Theorem convertBusyToFree_sound (busy : list (Z * Z)) (timeMin timeMax : Z) :
  timeMin < timeMax ->
  forall w, w ∈ convertBusyToFree busy timeMin timeMax ->
    w_google w = true /\ timeMin <= w_start w < w_end w /\
    forall b, b ∈ busy -> ~ (w_start w < b.2 /\ b.1 < w_end w).
Proof.
  intros Htm w Hw. unfold convertBusyToFree in Hw.
  destruct busy as [|b0 rest].
  - apply list_elem_of_singleton in Hw as ->. simpl. split_and!; [done|lia|lia|].
    intros b Hb. inversion Hb.
  - pose proof (merge_sort_busy (b0 :: rest)) as [HS Hin].
    pose proof (freeLoop_end timeMin (merge_sort busyOrder (b0 :: rest))) as [Hc1 Hc2].
    pose proof (freeLoop_windows timeMin (merge_sort busyOrder (b0 :: rest))) as Hwin.
    pose proof (freeLoop_disjoint timeMin (merge_sort busyOrder (b0 :: rest))) as Hdis.
    destruct (freeLoop timeMin (merge_sort busyOrder (b0 :: rest))) as [ws c]. simpl in *.
    apply elem_of_app in Hw as [Hw|Hw].
    + destruct (Hwin w Hw) as (? & ? & ?). split_and!; [done|lia|lia|].
      intros b Hb. apply (Hdis w b HS Hw). by apply Hin.
    + destruct (Z.ltb_spec c timeMax); [|inversion Hw].
      apply list_elem_of_singleton in Hw as ->. simpl. split_and!; [done|lia|lia|].
      intros b Hb. apply Hin in Hb. specialize (Hc2 b Hb). lia.
Qed.

Lemma convertBusyToFree_sound_witness :
  w_google {| w_start := 20; w_end := 50; w_google := true |} = true /\ 0 <= 20 < 50 /\
  forall b, b ∈ [(50, 60); (10, 20)] -> ~ (20 < b.2 /\ b.1 < 50).
Proof.
  apply (convertBusyToFree_sound [(50, 60); (10, 20)] 0 100 ltac:(lia)
           {| w_start := 20; w_end := 50; w_google := true |}).
  apply (list_elem_of_lookup_2 _ 1%nat). vm_compute. reflexivity.
Defined.

(** When every busy slot ends no earlier than it starts, the windows of
    [convertBusyToFree] come in increasing order and are pairwise disjoint:
    each window ends no later than every later window starts. *)
Theorem convertBusyToFree_ordered (busy : list (Z * Z)) (timeMin timeMax : Z) :
  (forall b, b ∈ busy -> b.1 <= b.2) ->
  StronglySorted (fun w1 w2 => w_end w1 <= w_start w2) (convertBusyToFree busy timeMin timeMax).
Proof.
  intros Hwf. unfold convertBusyToFree.
  destruct busy as [|b0 rest]; [repeat constructor|].
  pose proof (merge_sort_busy (b0 :: rest)) as [HS Hin].
  pose proof (freeLoop_end timeMin (merge_sort busyOrder (b0 :: rest))) as [Hc1 Hc2].
  pose proof (freeLoop_sorted timeMin (merge_sort busyOrder (b0 :: rest)) HS) as Hsort.
  destruct (freeLoop timeMin (merge_sort busyOrder (b0 :: rest))) as [ws c]. simpl in *.
  destruct Hsort as [Hs He]; [intros b Hb; apply Hwf, Hin, Hb|].
  apply StronglySorted_app_inv; [done| |].
  - destruct (c <? timeMax); repeat constructor.
  - intros x y Hx Hy. destruct (c <? timeMax); [|inversion Hy].
    apply list_elem_of_singleton in Hy as ->. simpl. by apply He.
Qed.

Lemma convertBusyToFree_ordered_witness :
  StronglySorted (fun w1 w2 => w_end w1 <= w_start w2)
    (convertBusyToFree [(50, 60); (10, 20); (15, 30)] 0 100).
Proof.
  apply (convertBusyToFree_ordered [(50, 60); (10, 20); (15, 30)] 0 100).
  intros b Hb. repeat (apply elem_of_cons in Hb as [->|Hb]; [simpl; lia|]). inversion Hb.
Defined.

(** [convertBusyToFree] misses no free time: every instant of
    [[timeMin, timeMax)] that lies in no busy slot lies in one of the
    returned windows. *)
Theorem convertBusyToFree_complete (busy : list (Z * Z)) (timeMin timeMax t : Z) :
  timeMin <= t < timeMax -> (forall b, b ∈ busy -> ~ (b.1 <= t < b.2)) ->
  exists w, w ∈ convertBusyToFree busy timeMin timeMax /\ w_start w <= t < w_end w.
Proof.
  intros Ht Hfree. unfold convertBusyToFree.
  destruct busy as [|b0 rest].
  - eexists. split; [by apply list_elem_of_singleton|simpl; lia].
  - pose proof (merge_sort_busy (b0 :: rest)) as [HS Hin].
    pose proof (freeLoop_complete timeMin (merge_sort busyOrder (b0 :: rest)) t) as Hc.
    destruct (freeLoop timeMin (merge_sort busyOrder (b0 :: rest))) as [ws c]. simpl in *.
    destruct Hc as [(w & Hw & Hwt)|Hct].
    + lia.
    + intros b Hb. apply Hfree, Hin, Hb.
    + exists w. split; [apply elem_of_app; by left|done].
    + destruct (Z.ltb_spec c timeMax); [|lia].
      eexists. split; [apply elem_of_app; right; by apply list_elem_of_singleton|simpl; lia].
Qed.

Lemma convertBusyToFree_complete_witness :
  exists w, w ∈ convertBusyToFree [(50, 60); (10, 20)] 0 100 /\ w_start w <= 30 < w_end w.
Proof.
  apply (convertBusyToFree_complete [(50, 60); (10, 20)] 0 100 30); [lia|].
  intros b Hb. repeat (apply elem_of_cons in Hb as [->|Hb]; [simpl; lia|]). inversion Hb.
Defined.

(** ** Upsert by id, shared by the slot and notification subscriptions *)

Section UpsertProps.
Context {A : Type} (idOf : A -> string) (R : relation A)
  `{!RelDecision R, !Total R, !Transitive R}.

Lemma NoDup_ids_same (prev : list A) i j id :
  NoDup (idOf <$> prev) ->
  (exists y, prev !! i = Some y /\ idOf y = id) ->
  (exists y, prev !! j = Some y /\ idOf y = id) -> i = j.
Proof.
  intros Hnd (y1 & H1 & E1) (y2 & H2 & E2).
  apply (NoDup_lookup (idOf <$> prev) i j id Hnd).
  - rewrite list_lookup_fmap, H1. simpl. by rewrite E1.
  - rewrite list_lookup_fmap, H2. simpl. by rewrite E2.
Qed.

Lemma upsertNext_spec (prev : list A) (id : string) (data : option A) :
  NoDup (idOf <$> prev) ->
  (forall x, data = Some x -> idOf x = id) ->
  let next := upsertNext idOf prev id data in
  NoDup (idOf <$> next) /\
  (forall y, y ∈ next -> idOf y = id -> data = Some y) /\
  (forall x, data = Some x -> x ∈ next) /\
  (forall y, idOf y <> id -> (y ∈ next <-> y ∈ prev)).
Proof.
  intros Hnd Hd next. unfold next, upsertNext.
  destruct data as [x|];
    destruct (list_find (fun x => idOf x = id) prev) as [[i y0]|] eqn:Hf.
  - apply list_find_Some in Hf as (Hi & Hy0 & _).
    assert (Hx : idOf x = id) by (apply Hd; done).
    assert (Hlt : (i < length prev)%nat) by (eapply lookup_lt_Some; eauto).
    split_and!.
    + rewrite list_fmap_insert, Hx, <- Hy0.
      rewrite list_insert_id; [done|]. by rewrite list_lookup_fmap, Hi.
    + intros y Hy Hid. apply list_elem_of_lookup in Hy as [j Hj].
      destruct (decide (i = j)) as [<-|Hne].
      * rewrite list_lookup_insert_eq in Hj by done. congruence.
      * rewrite list_lookup_insert_ne in Hj by done. exfalso. apply Hne.
        eapply NoDup_ids_same; eauto.
    + intros x' [= <-]. by apply list_elem_of_insert.
    + intros y Hyid. split; intros Hy; apply list_elem_of_lookup in Hy as [j Hj];
        apply list_elem_of_lookup; exists j.
      * destruct (decide (i = j)) as [<-|Hne].
        -- rewrite list_lookup_insert_eq in Hj by done. congruence.
        -- by rewrite list_lookup_insert_ne in Hj.
      * destruct (decide (i = j)) as [<-|Hne].
        -- congruence.
        -- by rewrite list_lookup_insert_ne.
  - apply list_find_None in Hf. rewrite Forall_forall in Hf.
    assert (Hx : idOf x = id) by (apply Hd; done).
    split_and!.
    + rewrite fmap_app. apply NoDup_app. split_and!; [done| |apply NoDup_singleton].
      intros z Hz Hz'. apply list_elem_of_singleton in Hz'. subst z.
      apply list_elem_of_fmap in Hz as (y & Ey & Hy). apply (Hf y Hy). congruence.
    + intros y Hy Hid. apply elem_of_app in Hy as [Hy|Hy].
      * by exfalso; apply (Hf y).
      * apply list_elem_of_singleton in Hy. by subst.
    + intros x' [= <-]. apply elem_of_app. right. by apply list_elem_of_singleton.
    + intros y Hyid. rewrite elem_of_app, list_elem_of_singleton.
      split; [intros [? | ->]; [done | congruence] | by left].
  - apply list_find_Some in Hf as (Hi & Hy0 & _).
    split_and!.
    + rewrite list_fmap_delete. eapply sublist_NoDup; [exact Hnd|].
      apply sublist_delete.
    + intros y Hy Hid. exfalso. apply list_elem_of_lookup in Hy as [j Hj].
      rewrite list_lookup_delete in Hj.
      assert (i = if decide (j < i)%nat then j else S j) as Heq.
      { eapply NoDup_ids_same; eauto. }
      destruct (decide (j < i)%nat); lia.
    + by intros x' ?.
    + intros y Hyid. split; intros Hy; apply list_elem_of_lookup in Hy as [j Hj];
        apply list_elem_of_lookup.
      * rewrite list_lookup_delete in Hj. eauto.
      * destruct (decide (j < i)%nat).
        -- exists j. by rewrite list_lookup_delete_lt.
        -- destruct (decide (i = j)) as [<-|Hne]; [congruence|].
           exists (j - 1)%nat. rewrite list_lookup_delete_ge by lia.
           by replace (S (j - 1)) with j%nat by lia.
  - apply list_find_None in Hf. rewrite Forall_forall in Hf.
    split_and!; [done| |by intros ? ?|done].
    intros y Hy Hid. by exfalso; apply (Hf y).
Qed.

Lemma upsertById_spec (prev : list A) (id : string) (data : option A) :
  NoDup (idOf <$> prev) ->
  (forall x, data = Some x -> idOf x = id) ->
  let r := upsertById idOf R prev id data in
  StronglySorted R r /\ NoDup (idOf <$> r) /\
  (forall y, y ∈ r -> idOf y = id -> data = Some y) /\
  (forall x, data = Some x -> x ∈ r) /\
  (forall y, idOf y <> id -> (y ∈ r <-> y ∈ prev)).
Proof.
  intros Hnd Hd r. unfold r, upsertById.
  pose proof (merge_sort_Permutation R (upsertNext idOf prev id data)) as HP.
  destruct (upsertNext_spec prev id data Hnd Hd) as (H1 & H2 & H3 & H4).
  split_and!.
  - exact (StronglySorted_merge_sort R _).
  - by rewrite HP.
  - intros y. rewrite HP. apply H2.
  - intros x. rewrite HP. apply H3.
  - intros y. rewrite HP. apply H4.
Qed.

End UpsertProps.

(** ** The slot and notification subscriptions *)

(** A slot delivered under a non-empty key [id] (the key being the
    slot's [id], as [generateSlots] writes it) keeps the slot list sorted by
    the comparator, with one entry per id: a delivered slot is in the list
    with empty [votes] and [voterNames], a null deletes the entry of [id], and
    the entries of other ids stay as they were. *)
Theorem deliverSlot_upsert (prev : list SlotWithVotes) (id : string) (data : option TimeSlot) :
  id <> "" ->
  NoDup ((fun sv => slot_id (sv_slot sv)) <$> prev) ->
  (forall d, data = Some d -> slot_id d = id) ->
  let r := deliverSlot prev id data in
  StronglySorted svOrder r /\
  NoDup ((fun sv => slot_id (sv_slot sv)) <$> r) /\
  (forall sv, sv ∈ r -> slot_id (sv_slot sv) = id ->
     data = Some (sv_slot sv) /\ votes sv = [] /\ voterNames sv = []) /\
  (forall d, data = Some d -> {| sv_slot := d; votes := []; voterNames := [] |} ∈ r) /\
  (forall sv, slot_id (sv_slot sv) <> id -> (sv ∈ r <-> sv ∈ prev)).
Proof.
  intros Hid Hnd Hd r. unfold r, deliverSlot.
  rewrite (proj2 (String.eqb_neq _ _) Hid).
  destruct (upsertById_spec (fun sv => slot_id (sv_slot sv)) svOrder prev id
              (option_map (fun d => {| sv_slot := d; votes := []; voterNames := [] |}) data) Hnd)
    as (H1 & H2 & H3 & H4 & H5).
  { intros x Hx. destruct data as [d|]; simpl in Hx; [|done].
    injection Hx as <-. simpl. by apply Hd. }
  split_and!; [done|done| | |done].
  - intros sv Hsv Hsid. specialize (H3 sv Hsv Hsid).
    destruct data as [d|]; simpl in H3; [|done].
    injection H3 as <-. simpl. done.
  - intros d ->. by apply H4.
Qed.

Lemma deliverSlot_upsert_witness :
  StronglySorted svOrder
    (deliverSlot [sampleSlot "a" 0 []] "b" (Some (sv_slot (sampleSlot "b" 10 [])))).
Proof.
  apply (deliverSlot_upsert [sampleSlot "a" 0 []] "b" (Some (sv_slot (sampleSlot "b" 10 [])))).
  - done.
  - refine (bool_decide_unpack _ _). vm_compute. reflexivity.
  - intros d [= <-]. reflexivity.
Defined.

(** A notification delivered under a non-empty key [id] (its own [id])
    keeps the list newest first with one entry per id: a delivered
    notification replaces the entry of [id] or joins the list, a null removes
    it, and the other notifications stay. *)
Theorem deliverNotification_upsert (prev : list Notification) (id : string)
    (data : option Notification) :
  id <> "" -> NoDup (n_id <$> prev) ->
  (forall n, data = Some n -> n_id n = id) ->
  let r := deliverNotification prev id data in
  StronglySorted (fun a b => n_createdAt b <= n_createdAt a) r /\
  NoDup (n_id <$> r) /\
  (forall n, n ∈ r -> n_id n = id -> data = Some n) /\
  (forall n, data = Some n -> n ∈ r) /\
  (forall n, n_id n <> id -> (n ∈ r <-> n ∈ prev)).
Proof.
  intros Hid Hnd Hd r. unfold r, deliverNotification.
  rewrite (proj2 (String.eqb_neq _ _) Hid).
  exact (upsertById_spec n_id notifOrder prev id data Hnd Hd).
Qed.

Lemma deliverNotification_upsert_witness :
  let n1 := {| n_id := "n1"; n_userPub := "u"; n_type := "slot_confirmed"; n_topicId := "t";
               n_topicTitle := "T"; n_message := "m"; n_read := false; n_createdAt := 5 |} in
  let n2 := {| n_id := "n2"; n_userPub := "u"; n_type := "slot_confirmed"; n_topicId := "t";
               n_topicTitle := "T"; n_message := "m"; n_read := false; n_createdAt := 9 |} in
  StronglySorted (fun a b => n_createdAt b <= n_createdAt a)
    (deliverNotification [n1] "n2" (Some n2)).
Proof.
  intros n1 n2.
  apply (deliverNotification_upsert [n1] "n2" (Some n2)).
  - done.
  - refine (bool_decide_unpack _ _). vm_compute. reflexivity.
  - intros n [= <-]. reflexivity.
Defined.

(** ** Slot selection *)

Lemma filter_ne_notin (l : list string) (s : string) :
  s ∉ l -> filter (fun id => id <> s) l = l.
Proof.
  induction l as [|x l IH]; intros Hs; [done|].
  rewrite filter_cons_True.
  - f_equal. apply IH. intros H. apply Hs. by apply elem_of_cons; right.
  - intros ->. apply Hs. by apply elem_of_cons; left.
Qed.

Lemma filter_ne_perm (l : list string) (s : string) :
  NoDup l -> s ∈ l -> l ≡ₚ (filter (fun id => id <> s) l ++ [s])%list.
Proof.
  induction l as [|x l IH]; intros Hnd Hs; [inversion Hs|].
  apply NoDup_cons in Hnd as [Hx Hnd].
  destruct (decide (x = s)) as [->|Hne].
  - rewrite filter_cons_False by (intros H; by apply H).
    rewrite filter_ne_notin by done. apply Permutation_cons_append.
  - rewrite filter_cons_True by done. simpl. constructor. apply IH; [done|].
    apply elem_of_cons in Hs as [->|Hs]; [done|done].
Qed.

(** [toggleSlotSelection] fails exactly when nobody is signed in; otherwise
    it toggles [slotId]: it is selected afterwards iff it was not before,
    every other id keeps its membership, and a duplicate-free selection stays
    duplicate-free.  Both writes go under the signed-in key. *)
Theorem toggleSlotSelection_spec (me : option string) (topicId : string)
    (sel : list string) (slotId : string) (now : Z) :
  match toggleSlotSelection me topicId sel slotId now with
  | Err e => signedIn me = None /\ e = "Must be authenticated to select slots"
  | Ok (sel', puts) =>
      exists pub, signedIn me = Some pub /\
        puts = [PutPrefSelectedSlots topicId pub sel'; PutPrefTimestamp topicId pub now] /\
        (slotId ∈ sel' <-> slotId ∉ sel) /\
        (forall id, id <> slotId -> (id ∈ sel' <-> id ∈ sel)) /\
        (NoDup sel -> NoDup sel')
  end.
Proof.
  unfold toggleSlotSelection. destruct (signedIn me) as [pub|]; [|done].
  exists pub. split_and!; [done|done|..];
    destruct (bool_decide_reflect (slotId ∈ sel)) as [Hin|Hnin].
  - rewrite list_elem_of_filter. naive_solver.
  - rewrite elem_of_app, list_elem_of_singleton. naive_solver.
  - intros id Hne. rewrite list_elem_of_filter. naive_solver.
  - intros id Hne. rewrite elem_of_app, list_elem_of_singleton. naive_solver.
  - intros Hnd. by apply NoDup_filter.
  - intros Hnd. apply NoDup_app. split_and!; [done| |apply NoDup_singleton].
    intros x Hx Hx'. apply list_elem_of_singleton in Hx'. by subst.
Qed.

(** Toggling the same slot twice: an unselected slot is added and removed
    again, giving back the selection; a selected slot is removed and added
    back at the end, so a duplicate-free selection comes back permuted. *)
Theorem toggleSlotSelection_twice (me : option string) (topicId : string)
    (sel : list string) (slotId : string) (now now' : Z)
    (sel1 sel2 : list string) (puts1 puts2 : list PrefPut) :
  toggleSlotSelection me topicId sel slotId now = Ok (sel1, puts1) ->
  toggleSlotSelection me topicId sel1 slotId now' = Ok (sel2, puts2) ->
  (slotId ∉ sel -> sel2 = sel) /\
  (slotId ∈ sel -> sel2 = (filter (fun id => id <> slotId) sel ++ [slotId])%list) /\
  (NoDup sel -> sel2 ≡ₚ sel).
Proof.
  unfold toggleSlotSelection. destruct (signedIn me) as [pub|]; [|done].
  intros [= <- _] [= <- _].
  destruct (bool_decide_reflect (slotId ∈ sel)) as [Hin|Hnin].
  - rewrite bool_decide_false.
    2:{ rewrite list_elem_of_filter. naive_solver. }
    split_and!; [done|done|]. intros Hnd. symmetry. by apply filter_ne_perm.
  - rewrite bool_decide_true.
    2:{ apply elem_of_app. right. by apply list_elem_of_singleton. }
    rewrite filter_app, filter_ne_notin by done.
    rewrite filter_cons_False by (intros H; by apply H). simpl.
    split_and!; [by rewrite app_nil_r|done|by rewrite app_nil_r].
Qed.

Lemma toggleSlotSelection_twice_witness :
  ("b" ∉ ["a"; "b"] -> ["a"; "b"] = ["a"; "b"]) /\
  ("b" ∈ ["a"; "b"] -> ["a"; "b"] = (filter (fun id => id <> "b") ["a"; "b"] ++ ["b"])%list) /\
  (NoDup ["a"; "b"] -> ["a"; "b"] ≡ₚ ["a"; "b"]).
Proof.
  eapply (toggleSlotSelection_twice (Some "alice") "t" ["a"; "b"] "b" 0 1 ["a"] ["a"; "b"]);
    reflexivity.
Defined.

(** ** Manual availability windows *)

Lemma filterIndexNe_delete (k : nat) (index : Z) (l : list AvailabilityWindow) :
  filterIndexNe k index l =
  if decide (Z.of_nat k <= index < Z.of_nat k + Z.of_nat (length l))
  then delete (Z.to_nat index - k)%nat l else l.
Proof.
  revert k. induction l as [|w l IH]; intros k; simpl.
  - by destruct (decide _).
  - rewrite IH. destruct (Z.eqb_spec (Z.of_nat k) index) as [<-|Hne].
    + rewrite (decide_False (P := (Z.of_nat (S k) <= Z.of_nat k < _))) by lia.
      rewrite decide_True by lia. rewrite Nat2Z.id, Nat.sub_diag. done.
    + destruct (decide (Z.of_nat (S k) <= index < Z.of_nat (S k) + Z.of_nat (length l))) as [Hr|Hr];
        destruct (decide (Z.of_nat k <= index < Z.of_nat k + Z.of_nat (S (length l)))) as [Hr'|Hr'];
        try lia; [|done].
      replace (Z.to_nat index - k)%nat with (S (Z.to_nat index - S k)) by lia. done.
Qed.

(** [removeManualWindow(index)] deletes the window at position [index]
    when [0 <= index < length], and leaves the windows as they are
    otherwise. *)
Theorem removeManualWindow_spec (prev : list AvailabilityWindow) (index : Z) :
  removeManualWindow prev index =
  if (0 <=? index) && (index <? Z.of_nat (length prev))
  then delete (Z.to_nat index) prev else prev.
Proof.
  unfold removeManualWindow. rewrite filterIndexNe_delete, Nat.sub_0_r.
  destruct (decide _) as [H|H];
    destruct (Z.leb_spec 0 index); destruct (Z.ltb_spec index (Z.of_nat (length prev)));
    simpl in *; lia || done.
Qed.

(** Removing the window just added by [addManualWindow], at index
    [length prev], gives back the previous windows. *)
Theorem addManualWindow_remove_last (prev : list AvailabilityWindow) (s e : Z) :
  removeManualWindow (addManualWindow prev s e) (Z.of_nat (length prev)) = prev.
Proof.
  rewrite removeManualWindow_spec. unfold addManualWindow.
  rewrite length_app. simpl.
  destruct (Z.leb_spec 0 (Z.of_nat (length prev))); [|lia].
  destruct (Z.ltb_spec (Z.of_nat (length prev)) (Z.of_nat (length prev + 1))); [|lia].
  simpl. rewrite Nat2Z.id, delete_take_drop, take_app_length.
  rewrite drop_app_ge by lia. replace (S (length prev) - length prev)%nat with 1%nat by lia.
  by rewrite app_nil_r.
Qed.

(** ** Combined availability and the submitted preference *)

Lemma convertBusyToFree_google (busy : list (Z * Z)) (timeMin timeMax : Z) w :
  w ∈ convertBusyToFree busy timeMin timeMax -> w_google w = true.
Proof.
  unfold convertBusyToFree. destruct busy as [|b0 rest].
  - by intros ->%list_elem_of_singleton.
  - pose proof (freeLoop_windows timeMin (merge_sort busyOrder (b0 :: rest)) w) as Hwin.
    destruct (freeLoop timeMin (merge_sort busyOrder (b0 :: rest))) as [ws c]. simpl in *.
    intros Hw. apply elem_of_app in Hw as [Hw|Hw]; [by apply Hwin|].
    destruct (c <? timeMax); [|inversion Hw].
    by apply list_elem_of_singleton in Hw as ->.
Qed.

Lemma existsb_google_all (l : list AvailabilityWindow) :
  (forall w, w ∈ l -> w_google w = true) -> existsb w_google l = true <-> l <> [].
Proof.
  destruct l as [|w l]; simpl; [done|]. intros Hall.
  rewrite (Hall w) by (apply elem_of_cons; by left). done.
Qed.

(** Submitting the combined availability of manual windows (which
    [addManualWindow] marks as not from Google) and the calendar response:
    the preference is written under the signed-in key with the current
    selection and time, and [calendarSyncedAt] is set, to the submission
    time, exactly when a connected calendar yields at least one free
    window.  Without a signed-in user nothing is written. *)
Theorem submitPreference_calendarSyncedAt (me : option string) (sel : list string)
    (name email : string) (manual : list AvailabilityWindow)
    (cal : option CalendarAvailability) (now : Z) :
  (forall w, w ∈ manual -> w_google w = false) ->
  match submitPreference me sel name email (getCombinedAvailability manual cal) now with
  | Err _ => signedIn me = None
  | Ok (p, synced) =>
      exists pub, signedIn me = Some pub /\ userPub p = pub /\
        selectedSlots p = Some sel /\ p_timestamp p = now /\
        availability p = getCombinedAvailability manual cal /\
        (synced = None \/ synced = Some now) /\
        (synced = Some now <->
         exists c, cal = Some c /\ hasCalendar c = true /\
           convertBusyToFree (cal_busySlots c) (cal_timeMin c) (cal_timeMax c) <> [])
  end.
Proof.
  intros Hman. unfold submitPreference.
  destruct (signedIn me) as [pub|]; [|done].
  assert (Hm : existsb w_google manual = false).
  { apply not_true_iff_false. intros (w & Hw & Hg)%existsb_exists.
    rewrite Hman in Hg; [done|]. by apply list_elem_of_In. }
  exists pub. split_and!; [done|done|done|done|done| |].
  { destruct (existsb w_google (getCombinedAvailability manual cal)); [by right|by left]. }
  unfold getCombinedAvailability.
  destruct cal as [c|]; [destruct (hasCalendar c) eqn:Hc|].
  - rewrite existsb_app, Hm. simpl.
    pose proof (existsb_google_all (convertBusyToFree (cal_busySlots c) (cal_timeMin c) (cal_timeMax c))
                  (convertBusyToFree_google _ _ _)) as Hg.
    destruct (existsb w_google (convertBusyToFree (cal_busySlots c) (cal_timeMin c) (cal_timeMax c))).
    + split; [intros _; eexists; split_and!; [done|done|by apply Hg]|done].
    + split; [done|]. intros (c' & [= <-] & _ & Hne). by apply Hg in Hne.
  - rewrite Hm. split; [done|]. intros (c' & [= <-] & Hc' & _). congruence.
  - rewrite Hm. split; [done|]. by intros (c' & ? & _).
Qed.

Lemma submitPreference_calendarSyncedAt_witness :
  match submitPreference (Some "alice") ["s1"] "Alice" "a@example.org"
          (getCombinedAvailability (addManualWindow [] 0 10)
             (Some {| hasCalendar := true; cal_busySlots := [(20, 30)];
                      cal_timeMin := 0; cal_timeMax := 100 |})) 7 with
  | Err _ => signedIn (Some "alice") = None
  | Ok (p, synced) =>
      exists pub, signedIn (Some "alice") = Some pub /\ userPub p = pub /\
        selectedSlots p = Some ["s1"] /\ p_timestamp p = 7 /\
        availability p = getCombinedAvailability (addManualWindow [] 0 10)
             (Some {| hasCalendar := true; cal_busySlots := [(20, 30)];
                      cal_timeMin := 0; cal_timeMax := 100 |}) /\
        (synced = None \/ synced = Some 7) /\
        (synced = Some 7 <->
         exists c, Some {| hasCalendar := true; cal_busySlots := [(20, 30)];
                           cal_timeMin := 0; cal_timeMax := 100 |} = Some c /\
           hasCalendar c = true /\
           convertBusyToFree (cal_busySlots c) (cal_timeMin c) (cal_timeMax c) <> [])
  end.
Proof.
  apply submitPreference_calendarSyncedAt.
  intros w Hw. apply list_elem_of_singleton in Hw as ->. reflexivity.
Defined.

(** ** Votes of a slot *)

Lemma map_as_fmap {X Y} (f : X -> Y) (l : list X) : map f l = f <$> l.
Proof. induction l as [|x l IH]; simpl; [done|]. by rewrite IH. Qed.

(** The effect recomputing a slot's votes: [votes] lists, without
    duplicates, exactly the keys of the preferences that select the slot,
    and [voterNames] has the [userName] of the voter at the same position. *)
Theorem withVotes_spec (prefs : Preferences) (sv : SlotWithVotes) :
  let r := withVotes prefs sv in
  sv_slot r = sv_slot sv /\ NoDup (votes r) /\
  length (voterNames r) = length (votes r) /\
  (forall pub, pub ∈ votes r <->
     exists p, prefs !! pub = Some p /\ includesSlot p (slot_id (sv_slot sv)) = true) /\
  (forall i pub, votes r !! i = Some pub ->
     exists p, prefs !! pub = Some p /\ voterNames r !! i = Some (userName p)).
Proof.
  unfold withVotes; simpl. rewrite !map_as_fmap.
  set (voters := filter (fun kv => includesSlot kv.2 (slot_id (sv_slot sv)) = true)
                        (map_to_list prefs)).
  split_and!.
  - done.
  - eapply sublist_NoDup; [apply (NoDup_fst_map_to_list prefs)|].
    apply (fmap_sublist fst). apply sublist_filter.
  - by rewrite !length_fmap.
  - intros pub. rewrite list_elem_of_fmap. split.
    + intros ([k p] & -> & Hkv). unfold voters in Hkv.
      apply list_elem_of_filter in Hkv as [Hs Hkv].
      apply elem_of_map_to_list in Hkv. by exists p.
    + intros (p & Hp & Hs). exists (pub, p). split; [done|].
      apply list_elem_of_filter. split; [done|]. by apply elem_of_map_to_list.
  - intros i pub Hi. apply list_lookup_fmap_Some in Hi as ([k p] & -> & Hkv).
    exists p. split.
    + apply elem_of_map_to_list. apply (list_elem_of_lookup_2 voters i) in Hkv.
      unfold voters in Hkv. by apply list_elem_of_filter in Hkv as [_ ?].
    + by rewrite list_lookup_fmap, Hkv.
Qed.

(** ** The availability grid *)

Lemma filter_fmap_cells {X} (c : string * SchedulingPreference -> GridCell) (id : string)
    (h : GridCell -> X) (g : string * SchedulingPreference -> X)
    (l : list (string * SchedulingPreference)) :
  (forall kv, g_selected (c kv) = includesSlot kv.2 id) -> (forall kv, h (c kv) = g kv) ->
  h <$> filter (fun x => g_selected x = true) (c <$> l) =
  g <$> filter (fun kv => includesSlot kv.2 id = true) l.
Proof.
  intros Hsel Hh. induction l as [|kv l IH]; [done|].
  rewrite fmap_cons, !filter_cons, Hsel.
  destruct (decide (includesSlot kv.2 id = true)); [|done].
  rewrite !fmap_cons. by rewrite Hh, IH.
Qed.

(** [getAvailabilityGrid] has a row per slot, in order, and a cell per
    preference in each row; the keys and names of the selected cells of a
    row are the [votes] and [voterNames] that the vote effect computes for
    its slot, in the same order. *)
Theorem getAvailabilityGrid_votes (prefs : Preferences) (slots : list SlotWithVotes) :
  fst <$> getAvailabilityGrid prefs slots = slots /\
  forall slot cells, (slot, cells) ∈ getAvailabilityGrid prefs slots ->
    length cells = size prefs /\
    g_pub <$> filter (fun c => g_selected c = true) cells = votes (withVotes prefs slot) /\
    g_name <$> filter (fun c => g_selected c = true) cells = voterNames (withVotes prefs slot).
Proof.
  unfold getAvailabilityGrid. rewrite (map_as_fmap _ slots). split.
  - induction slots as [|s l IH]; f_equal/=; auto.
  - intros slot cells Hin. apply list_elem_of_fmap in Hin as (slot' & [= -> ->] & _).
    unfold withVotes; simpl. rewrite !map_as_fmap. split_and!.
    + by rewrite length_fmap, length_map_to_list.
    + by apply filter_fmap_cells.
    + by apply filter_fmap_cells.
Qed.

(** ** Bounds of the consensus progress *)

Lemma withVotes_length_le (prefs : Preferences) (sv : SlotWithVotes) :
  (length (votes (withVotes prefs sv)) <= size prefs)%nat.
Proof.
  unfold withVotes; simpl. rewrite length_map, <- length_map_to_list.
  apply length_filter.
Qed.

Lemma selectionCount_le (prefs : Preferences) : (selectionCount prefs <= size prefs)%nat.
Proof.
  unfold selectionCount. rewrite <- length_map_to_list.
  etransitivity; [apply length_filter|]. by rewrite length_map.
Qed.

(** Over the slots with the votes of the current preferences, the
    consensus progress stays within the participants: the top slot's
    votes and the number of participants who voted are between 0 and
    [totalParticipants]; the top slot is one of the slots; and the vote bar
    that [SchedulingPanel] draws for it shows [topSlotPercentage]. *)
Theorem getConsensusProgress_bounds (cfg : option SchedulingConfig) (prefs : Preferences)
    (slots : list SlotWithVotes) :
  let r := getConsensusProgress cfg prefs (map (withVotes prefs) slots) in
  0 <= topSlotVotes r <= totalParticipants r /\
  0 <= participantsVoted r <= totalParticipants r /\
  forall s, topSlot r = Some s ->
    s ∈ map (withVotes prefs) slots /\
    topSlotVotes r = Z.of_nat (length (votes s)) /\
    votePercentage s (totalParticipants r) = topSlotPercentage r.
Proof.
  intros r. unfold r, getConsensusProgress.
  destruct slots as [|sv0 rest]; cbn [map].
  { simpl. split_and!; try lia. done. }
  destruct (Z.eqb_spec (Z.of_nat (size prefs)) 0) as [H0|H0].
  { simpl. split_and!; try lia. done. }
  destruct (pickTop_first_max (withVotes prefs sv0) (map (withVotes prefs) rest))
    as (i & Hi & Hv & _ & _).
  destruct (pickTop (withVotes prefs sv0) (voteCount (withVotes prefs sv0))
              (withVotes prefs sv0 :: map (withVotes prefs) rest)) as [top tv].
  simpl in Hi, Hv |- *.
  change (withVotes prefs sv0 :: map (withVotes prefs) rest)
    with (map (withVotes prefs) (sv0 :: rest)) in Hi |- *.
  rewrite map_as_fmap in Hi. apply list_lookup_fmap_Some in Hi as (sv & -> & Hsv).
  pose proof (withVotes_length_le prefs sv) as Hle.
  pose proof (selectionCount_le prefs) as Hsc.
  unfold voteCount in Hv. split_and!; try lia.
  intros s [= <-]. split_and!; [|done|].
  - rewrite map_as_fmap. apply list_elem_of_fmap. exists sv. split; [done|].
    by eapply list_elem_of_lookup_2.
  - unfold votePercentage. rewrite Hv.
    destruct (Z.ltb_spec 0 (Z.of_nat (size prefs))); [done|lia].
Qed.

(** ** The [/generate-slots] route (notifications.js, 160-258) *)

(** The route checks the session before the duration; when it answers, it
    returns [min 10 n] of the [n] candidates, sorted by the comparator, and
    every candidate it leaves out sorts after every slot it returns. *)
Theorem generateSlotsRoute_top10 (auth : bool) (now duration windowDays : Z)
    (ps : list Participant) :
  let P := potentialSlots now duration windowDays ps in
  match generateSlotsRoute auth now duration windowDays ps with
  | Err e => (auth = false /\ e = "Not authenticated") \/
             (auth = true /\ duration = 0 /\ e = "Duration is required")
  | Ok l =>
      auth = true /\ duration <> 0 /\
      length l = Nat.min 10 (length P) /\
      StronglySorted slotOrder l /\
      exists rest, (l ++ rest)%list ≡ₚ P /\
        forall a b, a ∈ l -> b ∈ rest -> slotOrder a b
  end.
Proof.
  intros P. unfold generateSlotsRoute.
  destruct auth; simpl; [|by left].
  destruct (Z.eqb_spec duration 0) as [->|Hd]; simpl; [by right|].
  fold P.
  pose proof (StronglySorted_merge_sort slotOrder P) as HS.
  pose proof (merge_sort_Permutation slotOrder P) as HP.
  rewrite <- (take_drop 10 (merge_sort slotOrder P)) in HS, HP.
  split_and!; [done|done| | |].
  - rewrite length_take, <- (Permutation_length HP), take_drop. done.
  - by eapply StronglySorted_app_1_l.
  - exists (drop 10 (merge_sort slotOrder P)). split; [done|].
    intros a b Ha Hb. by eapply StronglySorted_app_1_elem_of.
Qed.

Lemma same_day (t c : Z) : 0 <= t mod DAY + c < DAY -> (t + c) / DAY = t / DAY.
Proof.
  intros H. rewrite (Z.div_mod t DAY) at 1 by (unfold DAY; lia).
  replace (DAY * (t / DAY) + t mod DAY + c) with (t / DAY * DAY + (t mod DAY + c)) by lia.
  rewrite Z.div_add_l by (unfold DAY; lia). rewrite (Z.div_small (t mod DAY + c)) by lia. lia.
Qed.

Lemma mod_of_same_day (t u : Z) : u / DAY = t / DAY -> u mod DAY = t mod DAY + (u - t).
Proof.
  intros H. rewrite !Z.mod_eq by (unfold DAY; lia). rewrite H. lia.
Qed.

Lemma getHours_lt (t h : Z) : getHours t < h -> t mod DAY < h * HOUR.
Proof.
  unfold getHours. intros H.
  pose proof (Z.div_mod (t mod DAY) HOUR ltac:(unfold HOUR; lia)) as E.
  pose proof (Z.mod_pos_bound (t mod DAY) HOUR ltac:(unfold HOUR; lia)) as B.
  unfold HOUR in *. lia.
Qed.

Lemma setHours9_mod (x : Z) : setHours9 x mod DAY = 9 * HOUR.
Proof.
  unfold setHours9. rewrite (Z.mod_eq x DAY) by (unfold DAY; lia).
  replace (x - (x - DAY * (x / DAY)) + 9 * HOUR) with (9 * HOUR + x / DAY * DAY) by lia.
  rewrite Z.mod_add by (unfold DAY; lia). apply Z.mod_small. unfold HOUR, DAY. lia.
Qed.

(** One day's loop, for a positive duration: every slot starts a whole
    number of half hours after the day's first start, on the same calendar
    day, passes the loop condition, lasts [duration] minutes and is named
    after its start. *)
Lemma dayLoop_shape (fuel : nat) (t d : Z) (ps : list Participant) (s : TimeSlot) :
  0 < d -> s ∈ dayLoop fuel t d ps ->
  exists j, 0 <= j /\ start s = t + j * (30 * MINUTE) /\ start s / DAY = t / DAY /\
    60 * getHours (start s) + d < 60 * MEETING_END_HOUR /\
    end_ s = start s + d * MINUTE /\ slot_id s = "slot_" +:+ pretty (start s).
Proof.
  revert t. induction fuel as [|f IH]; intros t Hd Hs; simpl in Hs; [inversion Hs|].
  destruct (Z.ltb_spec (60 * getHours t + d) (60 * MEETING_END_HOUR)) as [Hc|Hc];
    [|inversion Hs].
  apply elem_of_cons in Hs as [->|Hs].
  - exists 0. simpl. split_and!; try lia; reflexivity.
  - destruct (IH (t + 30 * MINUTE) Hd Hs) as (j & Hj & Hst & Hday & Hrest).
    exists (j + 1). split_and!; [lia|lia| |apply Hrest..].
    rewrite Hday. apply same_day.
    assert (getHours t < 18) as Hh by (unfold MEETING_END_HOUR in Hc; lia).
    apply getHours_lt in Hh.
    pose proof (Z.mod_pos_bound t DAY ltac:(unfold DAY; lia)).
    unfold MINUTE, HOUR, DAY in *. lia.
Qed.

Lemma getDay_range (t : Z) : 0 <= getDay t < 7.
Proof. unfold getDay. apply Z.mod_pos_bound. lia. Qed.

Lemma daysLoop_shape (fuel : nat) (cd wEnd d : Z) (ps : list Participant) (s : TimeSlot) :
  0 < d -> cd mod DAY = 9 * HOUR -> s ∈ daysLoop fuel cd wEnd d ps ->
  cd <= start s /\ 1 <= getDay (start s) <= 5 /\
  (exists j, 0 <= j /\ start s mod DAY = 9 * HOUR + j * (30 * MINUTE)) /\
  60 * getHours (start s) + d < 60 * MEETING_END_HOUR /\
  end_ s = start s + d * MINUTE /\ slot_id s = "slot_" +:+ pretty (start s).
Proof.
  revert cd. induction fuel as [|f IH]; intros cd Hd Hcd Hs; cbn [daysLoop] in Hs; [inversion Hs|].
  destruct (cd <? wEnd); [|inversion Hs].
  apply elem_of_app in Hs as [Hs|Hs].
  - destruct ((getDay cd =? 0) || (getDay cd =? 6)) eqn:Hwe; [inversion Hs|].
    apply orb_false_iff in Hwe as [H0 H6].
    apply Z.eqb_neq in H0, H6. pose proof (getDay_range cd).
    destruct (dayLoop_shape 48 cd d ps s Hd Hs) as (j & Hj & Hst & Hday & Hrest).
    split_and!; [unfold MINUTE in Hst; lia| | |exists j; split; [done|] |apply Hrest..].
    + unfold getDay at 1. rewrite Hday. fold (getDay cd). lia.
    + unfold getDay at 1. rewrite Hday. fold (getDay cd). lia.
    + rewrite (mod_of_same_day cd (start s) Hday). lia.
  - pose proof (Z.mod_pos_bound (cd + DAY) DAY ltac:(unfold DAY; lia)).
    destruct (IH (setHours9 (cd + DAY)) Hd (setHours9_mod _) Hs) as (Hle & Hrest).
    split; [|done]. unfold setHours9 in Hle. unfold HOUR in *. lia.
Qed.

(** The slots the route answers with, for a positive duration: each starts
    no earlier than the request, on a weekday (Monday to Friday), at 09:00
    plus a whole number of half hours; its start hour passes the loop
    condition [getHours() < 18 - duration / 60]; it lasts [duration]
    minutes; and its id is [slot_] followed by its start. *)
Theorem generateSlotsRoute_slot_shape (auth : bool) (now d windowDays : Z)
    (ps : list Participant) :
  0 < d ->
  match generateSlotsRoute auth now d windowDays ps with
  | Err _ => True
  | Ok l =>
      forall s, s ∈ l ->
        now <= start s /\ 1 <= getDay (start s) <= 5 /\
        (exists j, 0 <= j /\ start s mod DAY = 9 * HOUR + j * (30 * MINUTE)) /\
        60 * getHours (start s) + d < 60 * MEETING_END_HOUR /\
        end_ s = start s + d * MINUTE /\ slot_id s = "slot_" +:+ pretty (start s)
  end.
Proof.
  intros Hd. unfold generateSlotsRoute.
  destruct auth; simpl; [|done]. destruct (Z.eqb_spec d 0); simpl; [done|].
  intros s Hs.
  apply elem_of_take in Hs as (i & Hs & _). apply list_elem_of_lookup_2 in Hs.
  rewrite (merge_sort_Permutation slotOrder _) in Hs.
  unfold potentialSlots in Hs.
  pose proof (Z.mod_pos_bound now DAY ltac:(unfold DAY; lia)).
  set (c0 := setHours9 now) in Hs.
  assert (Hc0 : c0 mod DAY = 9 * HOUR) by apply setHours9_mod.
  destruct (Z.ltb_spec c0 now) as [Hlt|Hge].
  - assert (Hm : (c0 + DAY) mod DAY = 9 * HOUR).
    { rewrite <- Hc0. replace (c0 + DAY) with (c0 + 1 * DAY) by lia.
      apply Z.mod_add. unfold DAY; lia. }
    destruct (daysLoop_shape _ _ _ d ps s Hd Hm Hs) as (Hle & Hrest).
    split; [|done]. unfold c0, setHours9 in *. unfold HOUR, DAY in *. lia.
  - destruct (daysLoop_shape _ _ _ d ps s Hd Hc0 Hs) as (Hle & Hrest).
    split; [lia|done].
Qed.

Lemma generateSlotsRoute_slot_shape_witness :
  exists l, generateSlotsRoute true (19723 * DAY + 8 * HOUR) 60 1 [] = Ok l /\ l <> [] /\
    Forall (fun s =>
      19723 * DAY + 8 * HOUR <= start s /\ 1 <= getDay (start s) <= 5 /\
      (exists j, 0 <= j /\ start s mod DAY = 9 * HOUR + j * (30 * MINUTE)) /\
      60 * getHours (start s) + 60 < 60 * MEETING_END_HOUR /\
      end_ s = start s + 60 * MINUTE /\ slot_id s = "slot_" +:+ pretty (start s)) l.
Proof.
  generalize (generateSlotsRoute_slot_shape true (19723 * DAY + 8 * HOUR) 60 1 []
                ltac:(lia)).
  destruct (generateSlotsRoute true (19723 * DAY + 8 * HOUR) 60 1 []) as [l|e] eqn:E;
    intros H.
  - exists l. split_and!; [done| |by apply Forall_forall].
    vm_compute in E. injection E as <-. discriminate.
  - vm_compute in E. discriminate.
Defined.

(** With a window of zero or fewer days the route answers with no slot:
    the first candidate day is never before [now + windowDays] days. *)
Theorem generateSlotsRoute_empty_window (now d windowDays : Z) (ps : list Participant) :
  d <> 0 -> windowDays <= 0 ->
  generateSlotsRoute true now d windowDays ps = Ok [].
Proof.
  intros Hd Hw. unfold generateSlotsRoute.
  rewrite (proj2 (Z.eqb_neq d 0) Hd). cbn [negb]. unfold potentialSlots.
  replace (Z.to_nat windowDays) with 0%nat by lia. cbn [daysLoop].
  pose proof (Z.mod_pos_bound now DAY ltac:(unfold DAY; lia)).
  assert (windowDays * DAY <= 0) by (unfold DAY; lia).
  destruct (Z.ltb_spec (setHours9 now) now) as [Hlt|Hge];
    [destruct (Z.ltb_spec (setHours9 now + DAY) (now + windowDays * DAY))
    |destruct (Z.ltb_spec (setHours9 now) (now + windowDays * DAY))];
    try reflexivity; unfold setHours9 in *; unfold HOUR, DAY in *; lia.
Qed.

Lemma generateSlotsRoute_empty_window_witness :
  generateSlotsRoute true (19723 * DAY + 8 * HOUR) 60 0 [] = Ok [].
Proof. apply generateSlotsRoute_empty_window; lia. Defined.

(** ** Notifying the participants of a topic *)

(** [notifyTopicParticipants] notifies each key of the preference graph at
    most once, and a key exactly when it is non-empty, not excluded and holds
    a preference (not a tombstone). *)
Theorem notifyTargets_spec (graph : gmap string (option SchedulingPreference))
    (excludePubs : list string) :
  NoDup (notifyTargets graph excludePubs) /\
  forall pub, pub ∈ notifyTargets graph excludePubs <->
    pub <> "" /\ (pub ∉ excludePubs) /\ exists p, graph !! pub = Some (Some p).
Proof.
  unfold notifyTargets. rewrite map_as_fmap. split.
  - eapply sublist_NoDup; [apply (NoDup_fst_map_to_list graph)|].
    apply (fmap_sublist fst). apply sublist_filter.
  - intros pub. rewrite list_elem_of_fmap. split.
    + intros ([k v] & -> & Hkv). apply list_elem_of_filter in Hkv as ((Hs & Hne & Hex) & Hkv).
      apply elem_of_map_to_list in Hkv. simpl in *. destruct Hs as [p ->]. eauto.
    + intros (Hne & Hex & p & Hp). exists (pub, Some p). split; [done|].
      apply list_elem_of_filter. split; [simpl; split_and!; [eexists; done|done|done]|].
      by apply elem_of_map_to_list.
Qed.

(** ** The stage lists of [useTopics] *)

Lemma stage_filters_length (l : list Topic) :
  Nat.add (Nat.add (Nat.add (length (filter (fun t => stage t = 1) l))
    (length (filter (fun t => stage t = 2) l)))
    (length (filter (fun t => stage t = 3) l)))
    (length (filter (fun t => stage t <> 1 /\ stage t <> 2 /\ stage t <> 3) l)) = length l.
Proof.
  induction l as [|t l IH]; [done|].
  rewrite !filter_cons. repeat case_decide; simpl; lia.
Qed.

Lemma topicsArray_elem (topics : gmap string Topic) (t : Topic) :
  t ∈ topicsArray topics <-> exists k, topics !! k = Some t.
Proof.
  unfold topicsArray. rewrite map_as_fmap, list_elem_of_fmap. split.
  - intros ([k t'] & -> & Hkv). apply elem_of_map_to_list in Hkv. by exists k.
  - intros (k & Hk). exists (k, t). split; [done|]. by apply elem_of_map_to_list.
Qed.

(** The three stage lists never share a topic, and together they hold
    every topic exactly when every topic's stage is 1, 2 or 3; a topic with
    any other stage is in none of them. *)
Theorem stageLists_partition (topics : gmap string Topic) :
  (forall t, t ∈ stage1Topics topics -> (t ∉ stage2Topics topics) /\ (t ∉ scheduledTopics topics)) /\
  (forall t, t ∈ stage2Topics topics -> t ∉ scheduledTopics topics) /\
  ((length (stage1Topics topics) + length (stage2Topics topics) +
    length (scheduledTopics topics))%nat = size topics <->
   forall k t, topics !! k = Some t -> stage t = 1 \/ stage t = 2 \/ stage t = 3).
Proof.
  unfold stage1Topics, stage2Topics, scheduledTopics.
  pose proof (stage_filters_length (topicsArray topics)) as Hlen.
  assert (Hsz : length (topicsArray topics) = size topics).
  { unfold topicsArray. by rewrite length_map, length_map_to_list. }
  split_and!.
  - intros t. rewrite !list_elem_of_filter. intros [H1 _]. split; intros [H ?]; lia.
  - intros t. rewrite !list_elem_of_filter. intros [H1 _] [H ?]; lia.
  - split.
    + intros Hsum k t Hk.
      assert (Hnil : length (filter (fun t => stage t <> 1 /\ stage t <> 2 /\ stage t <> 3)
                        (topicsArray topics)) = 0%nat) by (simpl in Hlen; lia).
      apply nil_length_inv in Hnil.
      destruct (decide (stage t = 1 \/ stage t = 2 \/ stage t = 3)) as [|Hn]; [done|].
      exfalso. assert (Hin : t ∈ filter (fun t => stage t <> 1 /\ stage t <> 2 /\ stage t <> 3)
                               (topicsArray topics)).
      { apply list_elem_of_filter. split; [lia|]. apply topicsArray_elem. by exists k. }
      rewrite Hnil in Hin. inversion Hin.
    + intros Hall.
      destruct (filter (fun t => stage t <> 1 /\ stage t <> 2 /\ stage t <> 3)
                  (topicsArray topics)) as [|t rest] eqn:Hf; [simpl in Hlen; lia|].
      exfalso. assert (Hin : t ∈ t :: rest) by (apply elem_of_cons; by left).
      rewrite <- Hf, list_elem_of_filter, topicsArray_elem in Hin.
      destruct Hin as (Hn & k & Hk). specialize (Hall k t Hk). lia.
Qed.

(** ** The two ways of submitting a preference *)

(** [submitAvailability] (useAvailability) and [submitPreference]
    (useScheduling) over the same combined availability, whose manual
    windows are not from Google: both fail exactly when nobody is signed
    in, and otherwise write the same preference.  [submitAvailability] sets
    [calendarSyncedAt] whenever the calendar is connected; the two
    [calendarSyncedAt] fields differ exactly when a connected calendar leaves
    no free window. *)
Theorem submitAvailability_vs_submitPreference (me : option string) (name email : string)
    (sel : list string) (manual : list AvailabilityWindow)
    (cal : option CalendarAvailability) (now : Z) :
  (forall w, w ∈ manual -> w_google w = false) ->
  match submitAvailability me name email sel manual cal now,
        submitPreference me sel name email (getCombinedAvailability manual cal) now with
  | Err _, Err _ => signedIn me = None
  | Ok (p1, s1), Ok (p2, s2) =>
      p1 = p2 /\
      (s1 = Some now <-> exists c, cal = Some c /\ hasCalendar c = true) /\
      (s1 <> s2 <->
       exists c, cal = Some c /\ hasCalendar c = true /\
         convertBusyToFree (cal_busySlots c) (cal_timeMin c) (cal_timeMax c) = [])
  | _, _ => False
  end.
Proof.
  intros Hman. unfold submitAvailability, submitPreference.
  destruct (signedIn me) as [pub|]; [|done].
  assert (Hm : existsb w_google manual = false).
  { apply not_true_iff_false. intros (w & Hw & Hg)%existsb_exists.
    rewrite Hman in Hg; [done|]. by apply list_elem_of_In. }
  split; [done|]. unfold getCombinedAvailability.
  destruct cal as [c|]; [destruct (hasCalendar c) eqn:Hc|].
  - rewrite existsb_app, Hm. simpl.
    pose proof (existsb_google_all (convertBusyToFree (cal_busySlots c) (cal_timeMin c) (cal_timeMax c))
                  (convertBusyToFree_google _ _ _)) as Hg.
    split; [split; [eauto|done]|].
    destruct (existsb w_google (convertBusyToFree (cal_busySlots c) (cal_timeMin c) (cal_timeMax c)))
      eqn:He.
    + split; [done|]. intros (c' & [= <-] & _ & Hnil). by apply Hg in Hnil.
    + split; [|done]. intros _. exists c. split_and!; [done|done|].
      destruct (convertBusyToFree (cal_busySlots c) (cal_timeMin c) (cal_timeMax c))
        as [|w0 l0] eqn:Hcb; [done|].
      exfalso. assert (Hne : w0 :: l0 <> []) by done. apply Hg in Hne. congruence.
  - rewrite Hm. split; [split; [done|intros (c' & [= <-] & ?); congruence]|].
    split; [done|intros (c' & [= <-] & Hc' & _); congruence].
  - rewrite Hm. split; [split; [done|by intros (c' & ? & _)]|].
    split; [done|by intros (c' & ? & _)].
Qed.

Lemma submitAvailability_vs_submitPreference_witness :
  let cal := Some {| hasCalendar := true; cal_busySlots := [(0, 100)];
                     cal_timeMin := 0; cal_timeMax := 100 |} in
  match submitAvailability (Some "alice") "Alice" "a@example.org" ["s1"] [] cal 7,
        submitPreference (Some "alice") ["s1"] "Alice" "a@example.org"
          (getCombinedAvailability [] cal) 7 with
  | Err _, Err _ => signedIn (Some "alice") = None
  | Ok (p1, s1), Ok (p2, s2) =>
      p1 = p2 /\
      (s1 = Some 7 <-> exists c, cal = Some c /\ hasCalendar c = true) /\
      (s1 <> s2 <->
       exists c, cal = Some c /\ hasCalendar c = true /\
         convertBusyToFree (cal_busySlots c) (cal_timeMin c) (cal_timeMax c) = [])
  | _, _ => False
  end.
Proof.
  intros cal. apply submitAvailability_vs_submitPreference.
  intros w Hw. inversion Hw.
Defined.
